(** * myvcs: a shallow embedding of [code.py]

    The program is a small version-control engine that keeps its whole
    state in files under [.myvcs].  This development embeds the
    [Repository] class as state-passing functions over a record of those
    files and proves properties of [add], [commit], [log], [status],
    [checkout] and [branch].

    Modelling conventions.
    - A Python [str] is a Rocq [string], one character per code point
      (code points below 256); file contents read in binary mode are
      strings too, one character per byte.
    - The directories [.myvcs/branches], [.myvcs/commits],
      [.myvcs/objects] and the current directory are finite maps from an
      entry name to the entry.  The names [""], ["."] and [".."] joined
      to a directory denote a directory and are treated as such.  A name
      that the program reads back from its own files ([HEAD], a branch
      file, a commit record, the index) and a path of the current
      directory are entry names: one path component.
    - A name that the user gives to [branch] or [checkout] and that is
      no entry is read as a path.  Where the entries of the directory
      settle what the path means ([followed]), the method goes on as the
      operating system decides ([open_new]); where the path leads
      elsewhere, the method is followed no further and ends with the
      marker [Unfollowed], which stands for no behaviour of the program.
    - The [index] file and the commit files hold JSON written by this
      program; they are represented by the value [json.load] returns for
      them.  [json.dumps] is embedded character by character, because
      the commit hash is computed from its output.
    - [hashlib.sha1] is embedded as the SHA-1 function itself.
    - [print] appends a line to the output; an uncaught Python exception
      ends the method with [Raise], keeping the files written so far. *)

From Stdlib Require Import ZArith Ascii String List Lia.
From stdpp Require Import gmap strings list sorting well_founded.

Local Open Scope Z_scope.

(** ** SHA-1 ([hashlib.sha1(...).hexdigest()]) *)

Module Sha1.

Definition ord (c : ascii) : Z := Z.of_N (N_of_ascii c).

Definition bytes_of (s : string) : list Z :=
  List.map ord (list_ascii_of_string s).

Definition mask32 : Z := 4294967295.

Definition add32 (a b : Z) : Z := Z.land (a + b) mask32.

Definition rotl32 (n x : Z) : Z :=
  Z.lor (Z.land (Z.shiftl x n) mask32) (Z.shiftr x (32 - n)).

(** Padding: one [0x80] byte, zeros up to 56 modulo 64, then the length
    in bits as a 64-bit big-endian integer. *)
Definition pad (bs : list Z) : list Z :=
  let len := Z.of_nat (List.length bs) in
  let bits := 8 * len in
  bs ++ 128 :: List.repeat 0 (Z.to_nat ((55 - len) mod 64))
     ++ List.map (fun i => Z.land (Z.shiftr bits (8 * i)) 255)
          [7; 6; 5; 4; 3; 2; 1; 0].

Fixpoint chunks (n : nat) (bs : list Z) : list (list Z) :=
  match n with
  | O => []
  | S n' => firstn 64 bs :: chunks n' (skipn 64 bs)
  end.

Fixpoint words_of (bs : list Z) : list Z :=
  match bs with
  | a :: b :: c :: d :: rest =>
      (((a * 256 + b) * 256 + c) * 256 + d) :: words_of rest
  | _ => []
  end.

(** The message schedule, most recent word first. *)
Fixpoint expand (n : nat) (w : list Z) : list Z :=
  match n with
  | O => w
  | S n' =>
      expand n'
        (rotl32 1 (Z.lxor (Z.lxor (nth 2 w 0) (nth 7 w 0))
                          (Z.lxor (nth 13 w 0) (nth 15 w 0))) :: w)
  end.

Definition schedule (block : list Z) : list Z :=
  List.rev (expand 64 (List.rev (words_of block))).

Definition state : Type := Z * Z * Z * Z * Z.

Definition round (st : state) (tw : Z * Z) : state :=
  let '(a, b, c, d, e) := st in
  let '(t, w) := tw in
  let '(f, k) :=
    if t <? 20 then
      (Z.lor (Z.land b c) (Z.land (Z.lxor b mask32) d), 1518500249)
    else if t <? 40 then (Z.lxor (Z.lxor b c) d, 1859775393)
    else if t <? 60 then
      (Z.lor (Z.lor (Z.land b c) (Z.land b d)) (Z.land c d), 2400959708)
    else (Z.lxor (Z.lxor b c) d, 3395469782) in
  (add32 (add32 (add32 (add32 (rotl32 5 a) f) e) k) w, a, rotl32 30 b, c, d).

Definition compress (h : state) (block : list Z) : state :=
  let '(h0, h1, h2, h3, h4) := h in
  let ws := schedule block in
  let '(a, b, c, d, e) :=
    List.fold_left round
      (List.combine (List.map Z.of_nat (List.seq 0 80)) ws) h in
  (add32 h0 a, add32 h1 b, add32 h2 c, add32 h3 d, add32 h4 e).

Definition initial : state :=
  (1732584193, 4023233417, 2562383102, 271733878, 3285377520).

Definition hex_digit (d : Z) : ascii :=
  ascii_of_N (Z.to_N (if d <? 10 then 48 + d else 87 + d)).

Definition hex32 (w : Z) (rest : string) : string :=
  String (hex_digit (Z.land (Z.shiftr w 28) 15))
 (String (hex_digit (Z.land (Z.shiftr w 24) 15))
 (String (hex_digit (Z.land (Z.shiftr w 20) 15))
 (String (hex_digit (Z.land (Z.shiftr w 16) 15))
 (String (hex_digit (Z.land (Z.shiftr w 12) 15))
 (String (hex_digit (Z.land (Z.shiftr w 8) 15))
 (String (hex_digit (Z.land (Z.shiftr w 4) 15))
 (String (hex_digit (Z.land w 15)) rest))))))).

Definition hexdigest (h : state) : string :=
  let '(h0, h1, h2, h3, h4) := h in
  hex32 h0 (hex32 h1 (hex32 h2 (hex32 h3 (hex32 h4 EmptyString)))).

Definition digest_state (s : string) : state :=
  let bs := pad (bytes_of s) in
  List.fold_left compress (chunks (Nat.div (List.length bs) 64) bs) initial.

Definition sha1 (s : string) : string := hexdigest (digest_state s).

End Sha1.

Abbreviation sha1 := Sha1.sha1.

(** ** Python strings *)

Module Text.

Definition ord := Sha1.ord.

Definition chr (n : Z) : ascii := ascii_of_N (Z.to_N n).

Definition quote : ascii := chr 34.
Definition backslash : ascii := chr 92.
Definition LF : ascii := chr 10.

(** [str.isspace] on the code points below 256. *)
Definition is_space (c : ascii) : bool :=
  let n := ord c in
  ((9 <=? n) && (n <=? 13)) || ((28 <=? n) && (n <=? 32))
  || (n =? 133) || (n =? 160).

Fixpoint lstrip (s : string) : string :=
  match s with
  | EmptyString => EmptyString
  | String c rest => if is_space c then lstrip rest else s
  end.

Fixpoint rstrip (s : string) : string :=
  match s with
  | EmptyString => EmptyString
  | String c rest =>
      match rstrip rest with
      | EmptyString => if is_space c then EmptyString else String c EmptyString
      | kept => String c kept
      end
  end.

(** [s.strip()] *)
Definition strip (s : string) : string := rstrip (lstrip s).

(** What [f.read()] returns for a file opened in text mode: a carriage
    return, alone or followed by a line feed, is read as a line feed. *)
Fixpoint read_text (s : string) : string :=
  match s with
  | EmptyString => EmptyString
  | String c rest =>
      if ord c =? 13 then
        match rest with
        | EmptyString => String LF EmptyString
        | String c' rest' =>
            if ord c' =? 10 then String LF (read_text rest')
            else String LF (read_text rest)
        end
      else String c (read_text rest)
  end.

(** [s[:7]] *)
Definition short (s : string) : string := String.substring 0 7 s.

(** [s.startswith(p)] *)
Definition startswith (s p : string) : bool := String.prefix p s.

(** [not s] for a string. *)
Definition falsy (s : string) : bool :=
  match s with EmptyString => true | _ => false end.

End Text.

(** ** Dictionaries from strings to strings, in insertion order *)

Definition dict : Type := list (string * string).

(** [d.get(k)] *)
Fixpoint dict_get (d : dict) (k : string) : option string :=
  match d with
  | [] => None
  | (k', v) :: rest => if String.eqb k k' then Some v else dict_get rest k
  end.

(** [d[k] = v]: an existing key keeps its place. *)
Fixpoint dict_set (d : dict) (k v : string) : dict :=
  match d with
  | [] => [(k, v)]
  | (k', v') :: rest =>
      if String.eqb k k' then (k', v) :: rest else (k', v') :: dict_set rest k v
  end.

(** ** Commit records and [json.dumps(commit, sort_keys=True)] *)

Record commit_record : Type := Commit {
  message : string;
  timestamp : string;
  files : dict;
  parent : option string
}.

Module Json.

Definition hex2 (n : Z) : string :=
  String (Sha1.hex_digit (Z.land (Z.shiftr n 4) 15))
    (String (Sha1.hex_digit (Z.land n 15)) EmptyString).

(** One character of a string under [ensure_ascii=True]. *)
Definition escape_char (c : ascii) : string :=
  let n := Text.ord c in
  if n =? 34 then String Text.backslash (String Text.quote EmptyString)
  else if n =? 92 then String Text.backslash (String Text.backslash EmptyString)
  else if n =? 8 then String Text.backslash "b"
  else if n =? 12 then String Text.backslash "f"
  else if n =? 10 then String Text.backslash "n"
  else if n =? 13 then String Text.backslash "r"
  else if n =? 9 then String Text.backslash "t"
  else if (n <? 32) || (126 <? n) then
    String Text.backslash ("u00" +:+ hex2 n)
  else String c EmptyString.

Fixpoint escape (s : string) : string :=
  match s with
  | EmptyString => EmptyString
  | String c rest => escape_char c +:+ escape rest
  end.

Definition str (s : string) : string :=
  String Text.quote (escape s +:+ String Text.quote EmptyString).

Definition str_or_null (o : option string) : string :=
  match o with
  | None => "null"
  | Some s => str s
  end.

(** The order of [sorted(d.items())]: pairs compared component by
    component. *)
Definition item_le (x y : string * string) : Prop :=
  String.le x.1 y.1 ∧ (x.1 = y.1 → String.le x.2 y.2).

Global Instance item_le_dec : RelDecision item_le.
Proof. intros x y. unfold item_le. apply _. Defined.

Definition sorted_items (d : dict) : dict := merge_sort item_le d.

Definition item (kv : string * string) : string :=
  str kv.1 +:+ ": " +:+ str kv.2.

Definition object_of (d : dict) : string :=
  "{" +:+ String.concat ", " (item <$> d) +:+ "}".

(** [json.dumps(commit, sort_keys=True)] *)
Definition dumps_sorted (c : commit_record) : string :=
  "{" +:+ str "files" +:+ ": " +:+ object_of (sorted_items (files c))
  +:+ ", " +:+ str "message" +:+ ": " +:+ str (message c)
  +:+ ", " +:+ str "parent" +:+ ": " +:+ str_or_null (parent c)
  +:+ ", " +:+ str "timestamp" +:+ ": " +:+ str (timestamp c)
  +:+ "}".

(** What [read_json] returns for a file that holds [dumps_sorted c]: the
    same record, the entries of [files] in the order of the file. *)
Definition loads_dumps_sorted (c : commit_record) : commit_record :=
  Commit (message c) (timestamp c) (sorted_items (files c)) (parent c).

End Json.

(** ** The files of a repository *)

(** An entry of the current directory. *)
Inductive entry : Type :=
  | File (content : string)
  | Dir.

(** What a path names. *)
Inductive node (A : Type) : Type :=
  | Missing
  | Directory
  | Regular (content : A).
Arguments Missing {A}.
Arguments Directory {A}.
Arguments Regular {A} content.

(** The files the program touches, as in [repo_path]. *)
Inductive path : Type :=
  | head_path
  | index_path
  | branch_path (name : string)
  | commit_path (name : string)
  | object_path (name : string)
  | work_path (name : string).

(** The exceptions of Python that end a method.  [Unfollowed p] is none
    of them: it ends the embedding of a method at a path [p] that this
    record of files does not describe (see [followed]); nothing is said
    about the program from there on. *)
Inductive exn : Type :=
  | TypeError
  | IsADirectoryError (p : path)
  | FileNotFoundError (p : path)
  | NotADirectoryError (p : path)
  | Unfollowed (p : path).

(** [head] is the attribute [self.head]; the other fields are the files:
    [.myvcs/HEAD], [.myvcs/branches/<name>], [.myvcs/commits/<name>],
    [.myvcs/objects/<name>], [.myvcs/index] and the current directory. *)
Record Repository : Type := mkRepository {
  head : option string;
  head_file : option string;
  branch_files : gmap string string;
  commit_files : gmap string commit_record;
  object_files : gmap string string;
  index_file : option dict;
  workdir : gmap string entry
}.

Definition dot_name (name : string) : bool :=
  bool_decide (name = "" ∨ name = "." ∨ name = "..").

(** [os.path.join(dir, name)] looked up: the directory itself for the
    empty name and the dot names. *)
Definition dir_entry {A : Type} (d : gmap string A) (name : string) : node A :=
  if dot_name name then Directory
  else match d !! name with
       | Some a => Regular a
       | None => Missing
       end.

(** A path relative to the current directory: the empty path names
    nothing. *)
Definition cwd_entry (w : gmap string entry) (name : string) : node string :=
  if bool_decide (name = "") then Missing
  else if dot_name name then Directory
  else match w !! name with
       | Some (File b) => Regular b
       | Some Dir => Directory
       | None => Missing
       end.

(** ** Names given by the user, read as paths *)

(** [branch] and [checkout] join a name that comes from the command
    line to [.myvcs/branches] and [.myvcs/commits].  A name that is an
    entry of the directory is that entry ([dir_entry]); the functions
    below say what a name that is no entry means as a path. *)

(** [name] up to its first separator [/], and what follows it. *)
Fixpoint cut (name : string) : string * option string :=
  match name with
  | EmptyString => (EmptyString, None)
  | String c rest =>
      if Text.ord c =? 47 then (EmptyString, Some rest)
      else let '(first, more) := cut rest in (String c first, more)
  end.

Definition separated (name : string) : bool :=
  match (cut name).2 with
  | Some _ => true
  | None => false
  end.

Fixpoint only_separators (s : string) : bool :=
  match s with
  | EmptyString => true
  | String c rest => (Text.ord c =? 47) && only_separators rest
  end.

Fixpoint has_nul (s : string) : bool :=
  match s with
  | EmptyString => false
  | String c rest => (Text.ord c =? 0) || has_nul rest
  end.

(** The bytes of [s] in UTF-8, the encoding of file names. *)
Fixpoint utf8_length (s : string) : Z :=
  match s with
  | EmptyString => 0
  | String c rest => (if Text.ord c <? 128 then 1 else 2) + utf8_length rest
  end.

(** The names whose meaning under a directory of regular files is
    settled by the entries of that directory: one path component, or a
    path whose first component is an entry name, so that the path stops
    at a missing entry or at a regular file.  Left out are the paths that
    lead elsewhere (an absolute path, a first component [.] or [..]) and
    the names the operating system may refuse (a NUL character, more than
    255 bytes). *)
Definition followed (name : string) : bool :=
  negb (has_nul name) && (utf8_length name <=? 255)
  && (negb (separated name) || negb (dot_name (cut name).1)).

(** One path component that the operating system accepts as the name
    of an entry (when it is none of [""], ["."] and [".."]). *)
Definition entry_name (name : string) : bool :=
  followed name && negb (separated name).

(** [open(os.path.join(dir, name), "w")] for a followed name that does
    not exist under [dir]. *)
Inductive opening : Type :=
  | Creates
  | Fails (e : path → exn).

(** A single component is created.  A path ends with [ENOENT] at a
    first component that is missing and with [ENOTDIR] at one that is a
    regular file; with nothing but separators after the first component,
    opening for writing ends with [EISDIR]. *)
Definition open_new {A : Type} (d : gmap string A) (name : string) : opening :=
  match cut name with
  | (_, None) => Creates
  | (first, Some rest) =>
      if only_separators rest then Fails IsADirectoryError
      else match d !! first with
           | Some _ => Fails NotADirectoryError
           | None => Fails FileNotFoundError
           end
  end.

(** ** Methods as state-passing functions with output and exceptions *)

Inductive outcome (A : Type) : Type :=
  | Return (a : A)
  | Raise (e : exn).
Arguments Return {A} a.
Arguments Raise {A} e.

Definition M (A : Type) : Type :=
  Repository → outcome A * Repository * list string.

Global Instance M_ret : MRet M := λ A a r, (Return a, r, []).

Global Instance M_bind : MBind M := λ A B k m r,
  match m r with
  | (Return a, r', out) =>
      let '(res, r'', out') := k a r' in (res, r'', out ++ out')
  | (Raise e, r', out) => (Raise e, r', out)
  end.

Definition print (line : string) : M unit := λ r, (Return (), r, [line]).

Definition print_all (lines : list string) : M unit :=
  λ r, (Return (), r, lines).

Definition raise {A : Type} (e : exn) : M A := λ r, (Raise e, r, []).

(** [f"{x}"] for an attribute that holds a string or [None]. *)
Definition format_opt (o : option string) : string :=
  match o with
  | Some s => s
  | None => "None"
  end.

Definition get : M Repository := λ r, (Return r, r, []).

Definition set_head (h : option string) : M unit := λ r,
  (Return (),
   mkRepository h (head_file r) (branch_files r) (commit_files r)
     (object_files r) (index_file r) (workdir r), []).

Definition write_head_file (t : string) : M unit := λ r,
  (Return (),
   mkRepository (head r) (Some t) (branch_files r) (commit_files r)
     (object_files r) (index_file r) (workdir r), []).

Definition write_branch_file (name t : string) : M unit := λ r,
  (Return (),
   mkRepository (head r) (head_file r) (<[name := t]> (branch_files r))
     (commit_files r) (object_files r) (index_file r) (workdir r), []).

Definition write_commit_file (name : string) (c : commit_record) : M unit :=
  λ r,
  (Return (),
   mkRepository (head r) (head_file r) (branch_files r)
     (<[name := c]> (commit_files r)) (object_files r) (index_file r)
     (workdir r), []).

Definition write_object_file (name b : string) : M unit := λ r,
  (Return (),
   mkRepository (head r) (head_file r) (branch_files r) (commit_files r)
     (<[name := b]> (object_files r)) (index_file r) (workdir r), []).

Definition write_work_file (name b : string) : M unit := λ r,
  (Return (),
   mkRepository (head r) (head_file r) (branch_files r) (commit_files r)
     (object_files r) (index_file r) (<[name := File b]> (workdir r)), []).

(** [Repository.load_head] *)
Definition load_head : M unit :=
  r ← get;
  match head_file r with
  | Some t => set_head (Some (Text.strip (Text.read_text t)))
  | None => set_head (Some "master")
  end.

(** [Repository.save_head]: the file is opened for writing, hence
    emptied, before [f.write] rejects a [None]. *)
Definition save_head : M unit :=
  r ← get;
  match head r with
  | Some h => write_head_file h
  | None => write_head_file "" ;; raise TypeError
  end.

(** [Repository.get_current_commit] *)
Definition get_current_commit : M (option string) :=
  r ← get;
  match head r with
  | None => raise TypeError
  | Some h =>
      match dir_entry (branch_files r) h with
      | Regular t => mret (Some (Text.strip (Text.read_text t)))
      | Directory => raise (IsADirectoryError (branch_path h))
      | Missing => mret None
      end
  end.

(** [Repository.update_branch] *)
Definition update_branch (commit_hash : string) : M unit :=
  r ← get;
  match head r with
  | None => raise TypeError
  | Some h =>
      if dot_name h then raise (IsADirectoryError (branch_path h))
      else write_branch_file h commit_hash
  end.

(** [Repository.read_index] *)
Definition read_index : M dict :=
  r ← get;
  match index_file r with
  | Some d => mret d
  | None => mret []
  end.

(** [Repository.write_index] *)
Definition write_index (index : dict) : M unit := λ r,
  (Return (),
   mkRepository (head r) (head_file r) (branch_files r) (commit_files r)
     (object_files r) (Some index) (workdir r), []).

(** The loop of [Repository.add]; it returns the local [index].  For a
    file that holds the bytes [b], [file_sha1(file)] is [sha1 b], and
    [shutil.copyfile] writes [b]. *)
Fixpoint add_loop (files : list string) (index : dict) : M dict :=
  match files with
  | [] => mret index
  | file :: rest =>
      r ← get;
      match cwd_entry (workdir r) file with
      | Missing =>
          print ("Warning: File '" +:+ file +:+ "' does not exist.") ;;
          add_loop rest index
      | Directory => raise (IsADirectoryError (work_path file))
      | Regular b =>
          let sha := sha1 b in
          let index := dict_set index file sha in
          match dir_entry (object_files r) sha with
          | Missing => write_object_file sha b
          | _ => mret ()
          end ;;
          print ("Added '" +:+ file +:+ "'") ;;
          add_loop rest index
      end
  end.

(** [Repository.add] *)
Definition add (files : list string) : M unit :=
  index ← read_index;
  index ← add_loop files index;
  write_index index.

(** The record built by [Repository.commit]; [now] is what
    [datetime.datetime.utcnow().isoformat()] returns. *)
Definition new_commit (msg now : string) (index : dict)
    (current : option string) : commit_record :=
  Commit msg (now +:+ "Z") index current.

Definition hash_commit (c : commit_record) : string :=
  sha1 (Json.dumps_sorted c).

(** [Repository.commit] *)
Definition commit (msg now : string) : M unit :=
  index ← read_index;
  match index with
  | [] => print "Nothing to commit, staging area is empty."
  | _ =>
      current ← get_current_commit;
      let c := new_commit msg now index current in
      let commit_hash := hash_commit c in
      write_commit_file (commit_hash +:+ ".json") (Json.loads_dumps_sorted c) ;;
      update_branch commit_hash ;;
      write_index [] ;;
      r ← get;
      print ("Committed to " +:+ format_opt (head r) +:+ ": "
             +:+ Text.short commit_hash +:+ " - " +:+ msg)
  end.

(** The [while] loop of [Repository.log], as the list of the commits it
    prints; [None] when [fuel] iterations did not end it. *)
Fixpoint walk (cs : gmap string commit_record) (fuel : nat)
    (commit_hash : option string) : option (list (string * commit_record)) :=
  match commit_hash with
  | None => Some []
  | Some h =>
      if Text.falsy h then Some []
      else match cs !! (h +:+ ".json") with
           | None => Some []
           | Some c =>
               match fuel with
               | O => None
               | S fuel' => cons (h, c) <$> walk cs fuel' (parent c)
               end
           end
  end.

Definition log_lines (hc : string * commit_record) : list string :=
  [ "commit " +:+ hc.1;
    "Date: " +:+ timestamp hc.2;
    String Text.LF ("    " +:+ message hc.2 +:+ String Text.LF "") ].

(** [Repository.log] *)
Definition log (fuel : nat) : Repository →
    option (outcome unit * Repository * list string) := λ r,
  match get_current_commit r with
  | (Raise e, r', out) => Some (Raise e, r', out)
  | (Return current, r', out) =>
      match current with
      | None => Some (Return (), r', out ++ ["No commits yet."])
      | Some h =>
          if Text.falsy h then Some (Return (), r', out ++ ["No commits yet."])
          else visited ← walk (commit_files r') fuel (Some h);
               Some (Return (), r', out ++ visited ≫= log_lines)
      end
  end.

(** The names [Repository.status] prints as modified: the regular files
    that [os.listdir] finds in the current directory, outside
    [.myvcs]-prefixed names, whose hash is not the one in [last_files].
    [os.listdir] promises no order; the names come in the order of the
    map. *)
Definition modified (w : gmap string entry) (last_files : dict) : list string :=
  List.filter
    (λ f, match cwd_entry w f with
          | Regular b =>
              negb (Text.startswith f ".myvcs")
              && negb (bool_decide (Some (sha1 b) = dict_get last_files f))
          | _ => false
          end)
    (map_to_list w).*1.

(** [Repository.status] *)
Definition status : M unit :=
  index ← read_index;
  print "Staged files:" ;;
  print_all ((λ kv : string * string, "  " +:+ kv.1) <$> index) ;;
  print "" ;;
  current_commit_hash ← get_current_commit;
  last_files ←
    match current_commit_hash with
    | None => mret []
    | Some h =>
        if Text.falsy h then mret []
        else r ← get;
             match dir_entry (commit_files r) (h +:+ ".json") with
             | Regular last_commit => mret (files last_commit)
             | Directory => raise (IsADirectoryError (commit_path (h +:+ ".json")))
             | Missing => raise (FileNotFoundError (commit_path (h +:+ ".json")))
             end
    end;
  print "Changes since last commit:" ;;
  r ← get;
  match modified (workdir r) last_files with
  | [] => print "  no changes"
  | changed => print_all ((λ f, "  modified: " +:+ f) <$> changed)
  end.

(** [shutil.copyfile(obj_path, filename)] *)
Definition copy_object (sha filename : string) : M unit :=
  r ← get;
  match dir_entry (object_files r) sha with
  | Missing => raise (FileNotFoundError (object_path sha))
  | Directory => raise (IsADirectoryError (object_path sha))
  | Regular b =>
      if bool_decide (filename = "") then
        raise (FileNotFoundError (work_path filename))
      else if dot_name filename then
        raise (IsADirectoryError (work_path filename))
      else match workdir r !! filename with
           | Some Dir => raise (IsADirectoryError (work_path filename))
           | _ => write_work_file filename b
           end
  end.

(** The loop of [Repository.checkout] over [files.items()]. *)
Fixpoint restore (files : dict) : M unit :=
  match files with
  | [] => mret ()
  | (filename, sha) :: rest => copy_object sha filename ;; restore rest
  end.

(** The part of [Repository.checkout] after the target is resolved. *)
Definition checkout_files (commit_hash : string) : M unit :=
  if Text.falsy commit_hash then print "error: commit not found"
  else
    r ← get;
    match dir_entry (commit_files r) (commit_hash +:+ ".json") with
    | Missing =>
        raise (FileNotFoundError (commit_path (commit_hash +:+ ".json")))
    | Directory =>
        raise (IsADirectoryError (commit_path (commit_hash +:+ ".json")))
    | Regular c =>
        restore (files c) ;;
        print ("Checked out files from commit " +:+ Text.short commit_hash)
    end.

(** [Repository.checkout].  An entry that is found settles the test
    [os.path.exists]; a target found in neither directory is read as a
    path, and the method is followed only where that path is known not
    to exist. *)
Definition checkout (target : string) : M unit :=
  r ← get;
  match dir_entry (branch_files r) target with
  | Regular t =>
      let commit_hash := Text.strip (Text.read_text t) in
      set_head (Some target) ;;
      save_head ;;
      print ("Switched to branch '" +:+ target +:+ "'") ;;
      checkout_files commit_hash
  | Directory => raise (IsADirectoryError (branch_path target))
  | Missing =>
      match dir_entry (commit_files r) (target +:+ ".json") with
      | Missing =>
          if negb (followed target) then
            raise (Unfollowed (branch_path target))
          else if negb (followed (target +:+ ".json")) then
            raise (Unfollowed (commit_path (target +:+ ".json")))
          else print ("error: unknown branch or commit '" +:+ target +:+ "'")
      | _ =>
          print ("Checked out commit " +:+ Text.short target
                 +:+ " (detached HEAD)") ;;
          set_head None ;;
          save_head ;;
          checkout_files target
      end
  end.

(** [Repository.branch].  For a name that is no entry, [open_new] is
    what [open(branch_file, "w")] does. *)
Definition branch (name : string) : M unit :=
  r ← get;
  match dir_entry (branch_files r) name with
  | Missing =>
      if followed name then
        current_commit ← get_current_commit;
        match current_commit with
        | None => print "No commits to branch from."
        | Some h =>
            if Text.falsy h then print "No commits to branch from."
            else
              match open_new (branch_files r) name with
              | Creates =>
                  write_branch_file name h ;;
                  print ("Created branch '" +:+ name +:+ "' at "
                         +:+ Text.short h)
              | Fails e => raise (e (branch_path name))
              end
        end
      else raise (Unfollowed (branch_path name))
  | _ => print ("Branch '" +:+ name +:+ "' already exists.")
  end.

(** The repository [init] creates in a directory that holds the entries
    [w], as [Repository()] first sees it. *)
Definition init (w : gmap string entry) : Repository :=
  mkRepository (Some "master") (Some "master") ∅ ∅ ∅ None w.

(** A method called the way [main] does: on a fresh [Repository()]. *)
Definition invoke {A : Type} (method : M A) : M A := load_head ;; method.

(** ** Notions used in the statements *)

Definition result (A : Type) : Type := outcome A * Repository * list string.

Definition returned {A : Type} (x : result A) : outcome A := x.1.1.
Definition final {A : Type} (x : result A) : Repository := x.1.2.
Definition printed {A : Type} (x : result A) : list string := x.2.

(** The commit hash read from the branch file [h], when there is one. *)
Definition current_of (r : Repository) (h : string) : option string :=
  (λ t, Text.strip (Text.read_text t)) <$> branch_files r !! h.

(** [HEAD] names a branch file, present or not yet written. *)
Definition attached (r : Repository) (h : string) : Prop :=
  head r = Some h ∧ dot_name h = false.

(** Two commit dictionaries that are equal in Python: the same fields,
    and the same items in [files], in any order. *)
Definition same_record (c1 c2 : commit_record) : Prop :=
  message c1 = message c2 ∧ timestamp c1 = timestamp c2
  ∧ parent c1 = parent c2 ∧ files c1 ≡ₚ files c2.

(** [p] is the parent recorded in the commit file of [h]. *)
Definition parent_of (cs : gmap string commit_record) (p h : string) : Prop :=
  ∃ c, cs !! (h +:+ ".json") = Some c ∧ parent c = Some p.

(** The commits from [start] along the parent links, newest first, up to
    an absent (or empty) parent or a hash with no commit file. *)
Inductive chain (cs : gmap string commit_record) :
    option string → list (string * commit_record) → Prop :=
  | chain_absent : chain cs None []
  | chain_empty : chain cs (Some "") []
  | chain_missing h :
      h ≠ "" → cs !! (h +:+ ".json") = None → chain cs (Some h) []
  | chain_step h c rest :
      h ≠ "" → cs !! (h +:+ ".json") = Some c →
      chain cs (parent c) rest → chain cs (Some h) ((h, c) :: rest).

(** A hash whose commit path [.myvcs/commits/<h>.json] is an entry
    name, and commit files whose parents are such hashes: the loop of
    [log] then opens entries of [.myvcs/commits] only. *)
Definition hash_name (h : string) : bool := entry_name (h +:+ ".json").

Definition entry_links (cs : gmap string commit_record) : Prop :=
  ∀ name c p, cs !! name = Some c → parent c = Some p → hash_name p = true.

(** An object file named [sha] exists. *)
Definition object_stored (r : Repository) (sha : string) : Prop :=
  ∃ b, dir_entry (object_files r) sha = Regular b.

(** Every hash in the staging index and in a commit file has its object
    file. *)
Definition hashes_stored (r : Repository) : Prop :=
  (∀ index p sha, index_file r = Some index → (p, sha) ∈ index →
     object_stored r sha)
  ∧ (∀ name c p sha, commit_files r !! name = Some c → (p, sha) ∈ files c →
     object_stored r sha).



(** The user rewrites a file of the current directory. *)
Definition edit (name b : string) (r : Repository) : Repository :=
  final (write_work_file name b r).

(** The scenario of two commits to one file. *)
Module Scenario.

Definition r0 : Repository := init {[ "f" := File "hello" ]}.
Definition r1 : Repository := final (invoke (add ["f"]) r0).
Definition r2 : Repository :=
  final (invoke (commit "first" "2024-01-01T00:00:00") r1).
Definition r3 : Repository :=
  final (invoke (add ["f"]) (edit "f" "world" r2)).
Definition r4 : Repository :=
  final (invoke (commit "second" "2024-01-02T00:00:00") r3).

Definition H1 : string := "23ecea130e59b51847d2b7f48461f61090727a8d".
Definition H2 : string := "9180c5113ef568b534089bff59f83766cd11503c".

(** The second commit is above the first. *)
Definition rank (h : string) : nat := if decide (h = H2) then 1 else 0.



(** A repository whose only commit file, written by hand, names itself
    as its parent. *)
Definition r_cycle : Repository :=
  mkRepository (Some "master") (Some "master") {[ "master" := "a" ]}
    {[ "a.json" := Commit "m" "t" [] (Some "a") ]} ∅ None ∅.

End Scenario.

(** The states the program reaches from [init] by its commands, each
    run on a fresh [Repository()], and by the user rewriting files of the
    current directory in between. *)
Inductive reachable : Repository → Prop :=
  | reach_init w : reachable (init w)
  | reach_edit r name b : reachable r → reachable (edit name b r)
  | reach_load r : reachable r → reachable (final (load_head r))
  | reach_add r fs : reachable r → reachable (final (invoke (add fs) r))
  | reach_commit r msg now :
      reachable r → reachable (final (invoke (commit msg now) r))
  | reach_checkout r target :
      reachable r → reachable (final (invoke (checkout target) r))
  | reach_branch r name :
      reachable r → reachable (final (invoke (branch name) r)).

(** Weakest preconditions: [Q] holds of the outcome and the files that
    [m] leaves. *)
Definition wp {A : Type} (m : M A) (Q : outcome A → Repository → Prop)
    (r : Repository) : Prop :=
  Q (returned (m r)) (final (m r)).
Global Arguments wp : simpl never.

(** The invariant of the loop of [add]: the local [index] names stored
    objects too. *)
Definition loop_inv (index : dict) (r : Repository) : Prop :=
  hashes_stored r ∧ ∀ p sha, (p, sha) ∈ index → object_stored r sha.

(** ** Further notions *)

(** No character of [s] is white space. *)
Fixpoint no_space (s : string) : bool :=
  match s with
  | EmptyString => true
  | String c rest => negb (Text.is_space c) && no_space rest
  end.




(** What one round of the loop of [add] does to the index, to the object
    files and to the output, for the entries [w] of the current
    directory. *)
Definition stage (w : gmap string entry) (index : dict) (file : string) : dict :=
  match cwd_entry w file with
  | Regular b => dict_set index file (sha1 b)
  | _ => index
  end.

Definition store (w : gmap string entry) (objects : gmap string string)
    (file : string) : gmap string string :=
  match cwd_entry w file with
  | Regular b =>
      match objects !! sha1 b with
      | None => <[sha1 b := b]> objects
      | Some _ => objects
      end
  | _ => objects
  end.

Definition add_line (w : gmap string entry) (file : string) : string :=
  match cwd_entry w file with
  | Regular _ => "Added '" +:+ file +:+ "'"
  | _ => "Warning: File '" +:+ file +:+ "' does not exist."
  end.

(** No path of [fs] is a directory. *)
Definition no_directory (w : gmap string entry) (fs : list string) : Prop :=
  Forall (λ f, cwd_entry w f ≠ Directory) fs.

(** [r'] differs from [r] at most in the current directory. *)
Definition only_workdir (r r' : Repository) : Prop :=
  head r' = head r ∧ head_file r' = head_file r
  ∧ branch_files r' = branch_files r ∧ commit_files r' = commit_files r
  ∧ object_files r' = object_files r ∧ index_file r' = index_file r.






(** ** Reading JSON strings back *)

(** A hexadecimal digit read back. *)
Definition unhex (c : ascii) : option Z :=
  let n := Text.ord c in
  if (48 <=? n) && (n <=? 57) then Some (n - 48)
  else if (97 <=? n) && (n <=? 102) then Some (n - 87)
  else None.

(** One character of a JSON string read back from its escaped form;
    [None] at the closing quote.  Used to show that [Json.escape] loses
    nothing. *)
Definition decode_char (s : string) : option (ascii * string) :=
  match s with
  | EmptyString => None
  | String c rest =>
      if Text.ord c =? 34 then None
      else if Text.ord c =? 92 then
        match rest with
        | String e rest' =>
            if Text.ord e =? 34 then Some (Text.quote, rest')
            else if Text.ord e =? 92 then Some (Text.backslash, rest')
            else if Text.ord e =? 98 then Some (Text.chr 8, rest')
            else if Text.ord e =? 102 then Some (Text.chr 12, rest')
            else if Text.ord e =? 110 then Some (Text.chr 10, rest')
            else if Text.ord e =? 114 then Some (Text.chr 13, rest')
            else if Text.ord e =? 116 then Some (Text.chr 9, rest')
            else if Text.ord e =? 117 then
              match rest' with
              | String _ (String _ (String hi (String lo rest''))) =>
                  match unhex hi, unhex lo with
                  | Some a, Some b => Some (Text.chr (16 * a + b), rest'')
                  | _, _ => None
                  end
              | _ => None
              end
            else None
        | EmptyString => None
        end
      else Some (c, rest)
  end.

(** The items of a JSON object between its braces. *)
Definition object_body (d : dict) : string :=
  String.concat ", " (Json.item <$> d).

(** * Proofs *)

(** ** Strings *)

Lemma app_cons (a : ascii) (s t : string) :
  String a s +:+ t = String a (s +:+ t).
Proof. reflexivity. Qed.

Lemma app_length (s t : string) :
  String.length (s +:+ t) = (String.length s + String.length t)%nat.
Proof. induction s as [|a s IH]; [done|]. rewrite app_cons; simpl. by rewrite IH. Qed.

Lemma dot_name_length (name : string) :
  dot_name name = true → (String.length name ≤ 2)%nat.
Proof.
  unfold dot_name. intros H%bool_decide_eq_true.
  destruct H as [-> | [-> | ->]]; simpl; lia.
Qed.

Lemma dot_name_json (h : string) : dot_name (h +:+ ".json") = false.
Proof.
  destruct (dot_name (h +:+ ".json")) eqn:E; [|done].
  apply dot_name_length in E. rewrite app_length in E. simpl in E. lia.
Qed.

Lemma dot_name_sha1 (b : string) : dot_name (sha1 b) = false.
Proof.
  destruct (dot_name (sha1 b)) eqn:E; [|done].
  apply dot_name_length in E. unfold Sha1.sha1, Sha1.hexdigest in E.
  destruct (Sha1.digest_state b) as [[[[h0 h1] h2] h3] h4].
  simpl in E. lia.
Qed.

(** ** The monad *)

Section monad_laws.
Context {A B : Type}.

Lemma bind_get (k : Repository → M B) r : (get ≫= k) r = k r r.
Proof. unfold mbind, M_bind, get. by destruct (k r r) as [[??]?]. Qed.

Lemma bind_returns (m : M A) (k : A → M B) r a r' out :
  m r = (Return a, r', out) →
  (m ≫= k) r = (returned (k a r'), final (k a r'), out ++ printed (k a r')).
Proof.
  intros Hm. unfold mbind, M_bind. rewrite Hm.
  by destruct (k a r') as [[??]?].
Qed.

Lemma bind_raises (m : M A) (k : A → M B) r e r' out :
  m r = (Raise e, r', out) → (m ≫= k) r = (Raise e, r', out).
Proof. intros Hm. unfold mbind, M_bind. by rewrite Hm. Qed.
End monad_laws.

Lemma read_index_eq r :
  read_index r = (Return (default [] (index_file r)), r, []).
Proof. unfold read_index. rewrite bind_get. by destruct (index_file r). Qed.

Lemma get_current_commit_attached r h :
  attached r h → get_current_commit r = (Return (current_of r h), r, []).
Proof.
  intros [Hh Hdot]. unfold get_current_commit, current_of, dir_entry.
  rewrite bind_get, Hh, Hdot. by destruct (branch_files r !! h).
Qed.

(** ** The order of [sorted(d.items())] and the commit hash *)

Section serialization.
Import Json.

Global Instance item_le_trans : Transitive item_le.
Proof.
  intros x y z [Hxy1 Hxy2] [Hyz1 Hyz2]. split; [by etrans|].
  intros Heq. rewrite Heq in Hxy1.
  assert (y.1 = z.1) as Hy by (by apply (anti_symm String.le)).
  etrans; [apply Hxy2; congruence | by apply Hyz2].
Qed.

Global Instance item_le_antisymm : AntiSymm (=) item_le.
Proof.
  intros [k1 v1] [k2 v2] [H1 H2] [H3 H4]; simpl in *.
  assert (k1 = k2) as -> by (by apply (anti_symm String.le)).
  f_equal. apply (anti_symm String.le); auto.
Qed.

Global Instance item_le_total : Total item_le.
Proof.
  intros x y. unfold item_le.
  destruct (decide (x.1 = y.1)) as [Heq | Hne].
  - rewrite Heq. destruct (total String.le x.2 y.2); [left | right]; done.
  - destruct (total String.le x.1 y.1); [left | right];
      split; congruence || done.
Qed.

Lemma sorted_items_sorted (d : dict) : Sorted item_le (sorted_items d).
Proof. apply Sorted_merge_sort, _. Qed.

Lemma sorted_items_perm (d1 d2 : dict) :
  d1 ≡ₚ d2 → sorted_items d1 = sorted_items d2.
Proof.
  intros Hp. apply (Sorted_unique item_le); try apply sorted_items_sorted.
  unfold sorted_items. by rewrite !merge_sort_Permutation.
Qed.

Lemma sorted_items_idemp (d : dict) :
  sorted_items (sorted_items d) = sorted_items d.
Proof. apply sorted_items_perm, merge_sort_Permutation. Qed.

Lemma elem_of_sorted_items (d : dict) (kv : string * string) :
  kv ∈ sorted_items d ↔ kv ∈ d.
Proof. unfold sorted_items. by rewrite merge_sort_Permutation. Qed.

Lemma dumps_sorted_same (c1 c2 : commit_record) :
  same_record c1 c2 → dumps_sorted c1 = dumps_sorted c2.
Proof.
  intros (Hm & Ht & Hp & Hf). unfold dumps_sorted.
  by rewrite Hm, Ht, Hp, (sorted_items_perm _ _ Hf).
Qed.



End serialization.

(** ** [commit] *)

(** C2.  When the staging index is empty ([index] absent, or holding an
    empty mapping) [commit] prints that there is nothing to commit and
    returns with every file and [self.head] as they were: no commit file
    is written, no branch file changes, the index is not rewritten. *)
Theorem commit_nothing_staged (r : Repository) (msg now : string) :
  index_file r = None ∨ index_file r = Some [] →
  commit msg now r =
    (Return (), r, ["Nothing to commit, staging area is empty."]).
Proof.
  intros Hidx. unfold commit, mbind, M_bind. rewrite read_index_eq.
  by destruct Hidx as [-> | ->].
Qed.

Lemma commit_nothing_staged_witness :
  commit "message" "2024-01-01T00:00:00" Scenario.r2 =
    (Return (), Scenario.r2, ["Nothing to commit, staging area is empty."]).
Proof. apply commit_nothing_staged. right. reflexivity. Defined.

Lemma commit_attached (r : Repository) (msg now h : string) (index : dict) :
  index_file r = Some index → index ≠ [] → attached r h →
  let c := new_commit msg now index (current_of r h) in
  commit msg now r =
    (Return (),
     mkRepository (head r) (head_file r)
       (<[h := hash_commit c]> (branch_files r))
       (<[hash_commit c +:+ ".json" := Json.loads_dumps_sorted c]>
          (commit_files r))
       (object_files r) (Some []) (workdir r),
     ["Committed to " +:+ h +:+ ": " +:+ Text.short (hash_commit c)
      +:+ " - " +:+ msg]).
Proof.
  intros Hidx Hne Hatt c.
  unfold commit. unfold mbind at 1, M_bind at 1. rewrite read_index_eq, Hidx.
  destruct index as [|kv index]; [done|]. simpl.
  unfold mbind at 1, M_bind at 1.
  rewrite (get_current_commit_attached r h Hatt). destruct Hatt as [Hh Hdot].
  unfold update_branch, write_commit_file, write_index, print, mbind, M_bind,
    get; simpl.
  by rewrite Hh, Hdot.
Qed.





(** ** Names read as paths *)

Lemma open_new_single {A : Type} (d : gmap string A) (name : string) :
  separated name = false → open_new d name = Creates.
Proof.
  unfold separated, open_new. by destruct (cut name) as [first [rest|]].
Qed.


(** ** [checkout] *)




(** The detached branch of [checkout]: [save_head] opens [HEAD] for
    writing and then fails on [f.write(None)], so the method ends with a
    [TypeError] before it reads the commit; [HEAD] is left empty and no
    file of the current directory is written. *)
Lemma checkout_commit_raises (r : Repository) (target : string)
    (c : commit_record) :
  dir_entry (branch_files r) target = Missing →
  commit_files r !! (target +:+ ".json") = Some c →
  checkout target r =
    (Raise TypeError,
     mkRepository None (Some "") (branch_files r) (commit_files r)
       (object_files r) (index_file r) (workdir r),
     ["Checked out commit " +:+ Text.short target +:+ " (detached HEAD)"]).
Proof.
  intros Hb Hc. unfold checkout, dir_entry at 2.
  rewrite bind_get, Hb, dot_name_json, Hc. reflexivity.
Qed.

(** C1 (the program fails it).  After the two commits of the scenario,
    [checkout] of the first commit's hash finds no branch of that name
    and finds the commit file, whose [files] map [f] to the object of
    ["hello"]; it raises [TypeError] in [save_head]: [f] still holds
    ["world"], and [HEAD] is an empty file rather than a detached head at
    that commit. *)
Theorem checkout_commit_hash_fails :
  dir_entry (branch_files Scenario.r4) Scenario.H1 = Missing
  ∧ (files <$> commit_files Scenario.r4 !! (Scenario.H1 +:+ ".json"))
    = Some [("f", sha1 "hello")]
  ∧ object_files Scenario.r4 !! sha1 "hello" = Some "hello"
  ∧ workdir Scenario.r4 !! "f" = Some (File "world")
  ∧ returned (invoke (checkout Scenario.H1) Scenario.r4) = Raise TypeError
  ∧ workdir (final (invoke (checkout Scenario.H1) Scenario.r4)) !! "f"
    = Some (File "world")
  ∧ head_file (final (invoke (checkout Scenario.H1) Scenario.r4)) = Some "".
Proof. repeat split; vm_compute; reflexivity. Qed.

(** ** [branch] *)




(** ** The stored-objects invariant *)

Section wp_rules.
Context {A B : Type}.

Lemma wp_bind (m : M A) (k : A → M B) Q r :
  wp m (λ o r', match o with
                | Return a => wp (k a) Q r'
                | Raise e => Q (Raise e) r'
                end) r →
  wp (m ≫= k) Q r.
Proof.
  unfold wp, returned, final, mbind, M_bind.
  destruct (m r) as [[[a|e] r'] out]; simpl; [|done].
  by destruct (k a r') as [[??]?].
Qed.

Lemma wp_mono (m : M A) (Q Q' : outcome A → Repository → Prop) r :
  wp m Q r → (∀ o r', Q o r' → Q' o r') → wp m Q' r.
Proof. unfold wp. auto. Qed.
End wp_rules.

Ltac wp_step :=
  apply wp_bind; unfold wp at 1; simpl;
  repeat match goal with
         | |- context [final (get ?x)] => change (final (get x)) with x
         end.

Lemma object_stored_write r name b sha :
  object_stored r sha → object_stored (final (write_object_file name b r)) sha.
Proof.
  intros [b' Hb']. unfold object_stored, dir_entry in *; simpl.
  destruct (dot_name sha); [done|].
  destruct (decide (name = sha)) as [-> | Hne].
  - rewrite lookup_insert_eq. eauto.
  - rewrite lookup_insert_ne by done. eauto.
Qed.

Lemma hashes_stored_write_object r name b :
  hashes_stored r → hashes_stored (final (write_object_file name b r)).
Proof.
  intros [Hi Hc]. split.
  - intros index p sha Hidx Hin. apply object_stored_write. eauto.
  - intros n c p sha Hn Hin. apply object_stored_write. eauto.
Qed.

Lemma elem_of_dict_set (d : dict) (k v : string) (kv : string * string) :
  kv ∈ dict_set d k v → kv ∈ d ∨ kv.2 = v.
Proof.
  induction d as [|[k' v'] d IH]; simpl.
  - intros ->%list_elem_of_singleton. by right.
  - destruct (String.eqb k k').
    + intros [-> | H]%elem_of_cons; [by right | left; by right].
    + intros [-> | H]%elem_of_cons; [left; by left|].
      destruct (IH H); [left; by right | by right].
Qed.

Lemma add_loop_stored (files : list string) :
  ∀ index r, loop_inv index r →
    wp (add_loop files index)
      (λ o r', match o with
               | Return index' => loop_inv index' r'
               | Raise _ => hashes_stored r'
               end) r.
Proof.
  induction files as [|file files IH]; intros index r Hinv; simpl.
  - exact Hinv.
  - wp_step. destruct (cwd_entry (workdir r) file) as [| |b] eqn:E.
    + wp_step. by apply IH.
    + exact (proj1 Hinv).
    + wp_step. destruct Hinv as [Hst Hidx].
      destruct (dir_entry (object_files r) (sha1 b)) as [| |b'] eqn:Ed.
      * unfold wp at 1; simpl. wp_step. apply IH. split.
        { by apply hashes_stored_write_object. }
        intros p sha [Hin | Heq]%elem_of_dict_set.
        { apply object_stored_write. eauto. }
        simpl in Heq. subst sha. exists b. unfold dir_entry in *; simpl.
        destruct (dot_name (sha1 b)); [done|]. by rewrite lookup_insert_eq.
      * unfold dir_entry in Ed. rewrite dot_name_sha1 in Ed.
        by destruct (object_files r !! sha1 b).
      * unfold wp at 1; simpl. wp_step. apply IH. split; [done|].
        intros p sha [Hin | Heq]%elem_of_dict_set; [eauto|].
        simpl in Heq. subst sha. by exists b'.
Qed.

Lemma add_stored (files : list string) r :
  hashes_stored r → hashes_stored (final (add files r)).
Proof.
  intros Hst. change (wp (add files) (λ _ r', hashes_stored r') r).
  unfold add. apply wp_bind. unfold wp at 1. rewrite read_index_eq. simpl.
  apply wp_bind. eapply wp_mono.
  - apply add_loop_stored. split; [done|].
    intros p sha Hin. destruct Hst as [Hi _].
    destruct (index_file r) as [d|] eqn:E; simpl in Hin; [eauto|].
    by apply elem_of_nil in Hin.
  - intros [index'|e] r'; [|done]. intros [[Hi Hc] Hidx].
    unfold wp; simpl. split; [|done].
    intros index p sha [= <-] Hin. destruct (Hidx p sha Hin) as [b Hb]. by exists b.
Qed.

Lemma hashes_stored_ext r r' :
  index_file r' = index_file r → commit_files r' = commit_files r →
  object_files r' = object_files r → hashes_stored r → hashes_stored r'.
Proof.
  unfold hashes_stored, object_stored. intros -> -> ->. done.
Qed.

Lemma get_current_commit_cases r :
  (∃ e, get_current_commit r = (Raise e, r, []))
  ∨ (∃ h, attached r h ∧ get_current_commit r = (Return (current_of r h), r, [])).
Proof.
  destruct (head r) as [h|] eqn:Hh.
  - destruct (dot_name h) eqn:Hdot.
    + left. exists (IsADirectoryError (branch_path h)).
      unfold get_current_commit, dir_entry. by rewrite bind_get, Hh, Hdot.
    + right. exists h. split; [done|]. by apply get_current_commit_attached.
  - left. exists TypeError. unfold get_current_commit. by rewrite bind_get, Hh.
Qed.

Lemma commit_cases r msg now :
  final (commit msg now r) = r
  ∨ ∃ h index, index_file r = Some index ∧ index ≠ [] ∧ attached r h
      ∧ commit msg now r =
        (Return (),
         mkRepository (head r) (head_file r)
           (<[h := hash_commit (new_commit msg now index (current_of r h))]>
              (branch_files r))
           (<[hash_commit (new_commit msg now index (current_of r h))
              +:+ ".json" :=
              Json.loads_dumps_sorted
                (new_commit msg now index (current_of r h))]>
              (commit_files r))
           (object_files r) (Some []) (workdir r),
         ["Committed to " +:+ h +:+ ": "
          +:+ Text.short
                (hash_commit (new_commit msg now index (current_of r h)))
          +:+ " - " +:+ msg]).
Proof.
  destruct (index_file r) as [[|kv index]|] eqn:Hidx.
  - left. unfold commit, mbind, M_bind. by rewrite read_index_eq, Hidx.
  - destruct (get_current_commit_cases r) as [[e He] | [h [Hatt _]]].
    + left. unfold commit. unfold mbind at 1, M_bind at 1.
      rewrite read_index_eq, Hidx. simpl.
      by rewrite (bind_raises _ _ _ _ _ _ He).
    + right. exists h, (kv :: index). repeat split; try done; try apply Hatt.
      by apply commit_attached.
  - left. unfold commit, mbind, M_bind. by rewrite read_index_eq, Hidx.
Qed.

Lemma commit_stored r msg now :
  hashes_stored r → hashes_stored (final (commit msg now r)).
Proof.
  intros Hst. destruct (commit_cases r msg now) as [-> | (h & index & Hidx & _ & _ & ->)];
    [done|].
  destruct Hst as [Hi Hc]. split; unfold final; simpl.
  - intros ? p sha [= <-] Hin. by apply elem_of_nil in Hin.
  - intros name c p sha [[_ <-] | [_ Hold]]%lookup_insert_Some Hin.
    + simpl in Hin. apply (proj1 (elem_of_sorted_items _ _)) in Hin.
      destruct (Hi index p sha Hidx Hin) as [b Hb]. by exists b.
    + destruct (Hc name c p sha Hold Hin) as [b Hb]. by exists b.
Qed.

Lemma restore_stored (files : dict) :
  ∀ r, hashes_stored r → (∀ p sha, (p, sha) ∈ files → object_stored r sha) →
    wp (restore files)
      (λ o r', hashes_stored r'
               ∧ ∀ sha, o ≠ Raise (FileNotFoundError (object_path sha))) r.
Proof.
  induction files as [|[filename sha] files IH]; intros r Hst Hfiles; simpl.
  - by split.
  - wp_step. unfold copy_object. wp_step.
    destruct (Hfiles filename sha) as [b Hb]; [by left|]. rewrite Hb.
    assert (hashes_stored (final (write_work_file filename b r))
            ∧ ∀ p s, (p, s) ∈ files →
                object_stored (final (write_work_file filename b r)) s)
      as [Hst' Hfiles'].
    { split; [by apply (hashes_stored_ext r)|].
      intros p s Hin. destruct (Hfiles p s) as [b' Hb']; [by right|].
      by exists b'. }
    case_bool_decide; [by split|].
    destruct (dot_name filename); [by split|].
    destruct (workdir r !! filename) as [[b'|]|];
      unfold wp at 1; simpl; try (by split); by apply IH.
Qed.

Lemma checkout_files_stored (commit_hash : string) r :
  hashes_stored r →
  wp (checkout_files commit_hash)
    (λ o r', hashes_stored r'
             ∧ ∀ sha, o ≠ Raise (FileNotFoundError (object_path sha))) r.
Proof.
  intros Hst. unfold checkout_files.
  destruct (Text.falsy commit_hash); [by split|].
  wp_step.
  destruct (dir_entry (commit_files r) (commit_hash +:+ ".json")) as [| |c] eqn:E;
    [by split..|].
  apply wp_bind. eapply wp_mono.
  - apply restore_stored; [done|].
    intros p sha Hin. unfold dir_entry in E.
    destruct (dot_name _); [done|].
    destruct (commit_files r !! _) as [c'|] eqn:Hc; [|done].
    injection E as ->. destruct Hst as [_ Hcs]. eauto.
  - intros [[]|e] r' [Hst' Hno]; [by split | done].
Qed.

Lemma checkout_stored (target : string) r :
  hashes_stored r →
  wp (checkout target)
    (λ o r', hashes_stored r'
             ∧ ∀ sha, o ≠ Raise (FileNotFoundError (object_path sha))) r.
Proof.
  intros Hst. unfold checkout. wp_step.
  destruct (dir_entry (branch_files r) target) as [| |t].
  - destruct (dir_entry (commit_files r) (target +:+ ".json")); [|by split..].
    destruct (followed target), (followed (target +:+ ".json")); by split.
  - by split.
  - wp_step. wp_step. wp_step.
    apply checkout_files_stored. by apply (hashes_stored_ext r).
Qed.

Lemma branch_stored (name : string) r :
  hashes_stored r → hashes_stored (final (branch name r)).
Proof.
  intros Hst. change (wp (branch name) (λ _ r', hashes_stored r') r).
  unfold branch. wp_step.
  destruct (dir_entry (branch_files r) name); [|done..].
  destruct (followed name); [|done].
  apply wp_bind. unfold wp at 1.
  destruct (get_current_commit_cases r) as [[e ->] | [h [_ ->]]]; simpl; [done|].
  destruct (current_of r h) as [c|]; [|done].
  destruct (Text.falsy c); [done|].
  destruct (open_new (branch_files r) name); [|done].
  wp_step. by apply (hashes_stored_ext r).
Qed.

Lemma init_stored (w : gmap string entry) : hashes_stored (init w).
Proof.
  split; [done|]. intros name c p sha Hc. simpl in Hc.
  by rewrite lookup_empty in Hc.
Qed.

Lemma load_head_stored r : hashes_stored r → hashes_stored (final (load_head r)).
Proof.
  intros Hst. apply (hashes_stored_ext r); try done;
    unfold load_head; rewrite bind_get; by destruct (head_file r).
Qed.

Lemma invoke_wp {A : Type} (m : M A) (Q : outcome A → Repository → Prop) r :
  wp m Q (final (load_head r)) → wp (invoke m) Q r.
Proof.
  intros Hm. unfold invoke. apply wp_bind. unfold wp at 1.
  assert (returned (load_head r) = Return ()) as ->; [|done].
  unfold load_head. rewrite bind_get. by destruct (head_file r).
Qed.

(** Every state the program reaches keeps the invariant. *)
Lemma reachable_stored r : reachable r → hashes_stored r.
Proof.
  induction 1 as [w | r name b _ IH | r _ IH | r fs _ IH | r msg now _ IH
                 | r target _ IH | r name _ IH].
  - apply init_stored.
  - by apply (hashes_stored_ext r).
  - by apply load_head_stored.
  - apply (invoke_wp (add fs) (λ _ r', hashes_stored r')).
    by apply add_stored, load_head_stored.
  - apply (invoke_wp (commit msg now) (λ _ r', hashes_stored r')).
    by apply commit_stored, load_head_stored.
  - apply (invoke_wp (checkout target) (λ _ r', hashes_stored r')).
    eapply wp_mono; [by apply checkout_stored, load_head_stored|].
    by intros o r' [? _].
  - apply (invoke_wp (branch name) (λ _ r', hashes_stored r')).
    by apply branch_stored, load_head_stored.
Qed.

(** C10.  When every hash in the staging index and in the commit files
    has its object file, this still holds after [add] and after [commit],
    whatever their arguments and however they end, and [checkout] never
    fails for want of an object file: it raises no [FileNotFoundError]
    on a path of [.myvcs/objects]. *)
Theorem objects_of_recorded_hashes_stored (r : Repository) :
  hashes_stored r →
  (∀ fs, hashes_stored (final (add fs r)))
  ∧ (∀ msg now, hashes_stored (final (commit msg now r)))
  ∧ (∀ target sha,
       returned (checkout target r)
       ≠ Raise (FileNotFoundError (object_path sha))).
Proof.
  intros Hst. split; [|split].
  - intros fs. by apply add_stored.
  - intros msg now. by apply commit_stored.
  - intros target sha. by apply (checkout_stored target r Hst).
Qed.

Lemma objects_of_recorded_hashes_stored_witness :
  (∀ fs, hashes_stored (final (add fs Scenario.r4)))
  ∧ (∀ msg now, hashes_stored (final (commit msg now Scenario.r4)))
  ∧ (∀ target sha,
       returned (checkout target Scenario.r4)
       ≠ Raise (FileNotFoundError (object_path sha))).
Proof.
  apply objects_of_recorded_hashes_stored.
  apply reachable_stored.
  apply (reach_commit Scenario.r3), (reach_add (edit "f" "world" Scenario.r2)),
    (reach_edit Scenario.r2), (reach_commit Scenario.r1),
    (reach_add Scenario.r0), reach_init.
Defined.

(** ** [add] and the content store *)

Lemma dict_get_set_eq (d : dict) (k v : string) :
  dict_get (dict_set d k v) k = Some v.
Proof.
  induction d as [|[k' v'] d IH]; simpl.
  - by rewrite String.eqb_refl.
  - destruct (String.eqb k k') eqn:E; simpl; rewrite E; [done | exact IH].
Qed.

Lemma dict_get_set_ne (d : dict) (k k' v : string) :
  k ≠ k' → dict_get (dict_set d k v) k' = dict_get d k'.
Proof.
  intros Hne.
  assert (String.eqb k' k = false) as Hf by (apply String.eqb_neq; congruence).
  induction d as [|[k0 v0] d IH]; simpl.
  - by rewrite Hf.
  - destruct (String.eqb k k0) eqn:E; simpl; [|by rewrite IH].
    apply String.eqb_eq in E as <-. by rewrite Hf.
Qed.

(** One round of the loop of [add] on a regular file. *)
Lemma add_one (r : Repository) (file b : string) :
  cwd_entry (workdir r) file = Regular b →
  add [file] r =
    (Return (),
     mkRepository (head r) (head_file r) (branch_files r) (commit_files r)
       (match object_files r !! sha1 b with
        | None => <[sha1 b := b]> (object_files r)
        | Some _ => object_files r
        end)
       (Some (dict_set (default [] (index_file r)) file (sha1 b)))
       (workdir r),
     ["Added '" +:+ file +:+ "'"]).
Proof.
  intros Hf. unfold add. unfold mbind at 1, M_bind at 1.
  rewrite read_index_eq. unfold add_loop. unfold mbind at 1, M_bind at 1.
  rewrite bind_get, Hf.
  unfold dir_entry. rewrite dot_name_sha1.
  by destruct (object_files r !! sha1 b).
Qed.

(** C4.  Two files with the same bytes added one after the other: both
    calls return, the index gives both paths the same hash, the object
    file of that hash exists, the second call leaves [.myvcs/objects] as
    the first left it, and no object file of another name is created or
    changed. *)
Theorem add_same_content (r : Repository) (f1 f2 b : string) :
  cwd_entry (workdir r) f1 = Regular b →
  cwd_entry (workdir r) f2 = Regular b →
  let r1 := final (add [f1] r) in
  let r2 := final (add [f2] r1) in
  returned (add [f1] r) = Return ()
  ∧ returned (add [f2] r1) = Return ()
  ∧ (∃ index, index_file r2 = Some index
       ∧ dict_get index f1 = Some (sha1 b)
       ∧ dict_get index f2 = Some (sha1 b))
  ∧ is_Some (object_files r2 !! sha1 b)
  ∧ object_files r2 = object_files r1
  ∧ ∀ sha, sha ≠ sha1 b → object_files r2 !! sha = object_files r !! sha.
Proof.
  intros Hf1 Hf2 r1 r2.
  assert (cwd_entry (workdir r1) f2 = Regular b) as Hf2'.
  { unfold r1. by rewrite (add_one r f1 b Hf1). }
  assert (is_Some (object_files r1 !! sha1 b)) as [b1 Hb1].
  { unfold r1. rewrite (add_one r f1 b Hf1). simpl.
    destruct (object_files r !! sha1 b) eqn:E; [by rewrite E|].
    by rewrite lookup_insert_eq. }
  assert (object_files r2 = object_files r1) as Hsame.
  { unfold r2. rewrite (add_one r1 f2 b Hf2'). simpl. by rewrite Hb1. }
  split; [by rewrite (add_one r f1 b Hf1)|].
  split; [by rewrite (add_one r1 f2 b Hf2')|].
  split; [|split; [|split]].
  - unfold r2. rewrite (add_one r1 f2 b Hf2'). simpl.
    eexists; split; [done|]. split; [|apply dict_get_set_eq].
    destruct (decide (f2 = f1)) as [-> | Hne]; [apply dict_get_set_eq|].
    rewrite dict_get_set_ne by done.
    unfold r1. rewrite (add_one r f1 b Hf1). simpl. apply dict_get_set_eq.
  - rewrite Hsame. eauto.
  - done.
  - intros sha Hne. rewrite Hsame. unfold r1. rewrite (add_one r f1 b Hf1). simpl.
    destruct (object_files r !! sha1 b); [done|]. by rewrite lookup_insert_ne.
Qed.

Lemma add_same_content_witness :
  let r := init {[ "a.txt" := File "hello"; "b.txt" := File "hello" ]} in
  let r1 := final (add ["a.txt"] r) in
  let r2 := final (add ["b.txt"] r1) in
  returned (add ["a.txt"] r) = Return ()
  ∧ returned (add ["b.txt"] r1) = Return ()
  ∧ (∃ index, index_file r2 = Some index
       ∧ dict_get index "a.txt" = Some (sha1 "hello")
       ∧ dict_get index "b.txt" = Some (sha1 "hello"))
  ∧ is_Some (object_files r2 !! sha1 "hello")
  ∧ object_files r2 = object_files r1
  ∧ ∀ sha, sha ≠ sha1 "hello" → object_files r2 !! sha = object_files r !! sha.
Proof.
  apply (add_same_content
           (init {[ "a.txt" := File "hello"; "b.txt" := File "hello" ]})
           "a.txt" "b.txt" "hello");
    vm_compute; reflexivity.
Defined.

(** ** [status] *)







(** ** [log] *)

Lemma walk_chain (cs : gmap string commit_record) (fuel : nat) :
  ∀ start visited, walk cs fuel start = Some visited → chain cs start visited.
Proof.
  induction fuel as [|fuel IH]; intros [h|] visited; simpl;
    try (intros [= <-]; constructor).
  - destruct h as [|a h]; simpl; [intros [= <-]; constructor|].
    destruct (cs !! (String a h +:+ ".json")) as [c|] eqn:Hc; [done|].
    intros [= <-]. by constructor.
  - destruct h as [|a h]; simpl; [intros [= <-]; constructor|].
    destruct (cs !! (String a h +:+ ".json")) as [c|] eqn:Hc.
    + destruct (walk cs fuel (parent c)) as [rest|] eqn:Hw; [|done].
      intros [= <-]. constructor; [done..|]. by apply IH.
    + intros [= <-]. by constructor.
Qed.

Lemma walk_more_fuel (cs : gmap string commit_record) (fuel : nat) :
  ∀ start visited fuel', walk cs fuel start = Some visited →
    (fuel ≤ fuel')%nat → walk cs fuel' start = Some visited.
Proof.
  induction fuel as [|fuel IH]; intros [h|] visited fuel' Hw Hle;
    try (by destruct fuel').
  - simpl in Hw. destruct fuel'; [done|]. simpl.
    destruct (Text.falsy h); [done|]. by destruct (cs !! (h +:+ ".json")).
  - destruct fuel' as [|fuel']; [lia|]. simpl in *.
    destruct (Text.falsy h); [done|].
    destruct (cs !! (h +:+ ".json")) as [c|]; [|done].
    destruct (walk cs fuel (parent c)) as [rest|] eqn:Hr; [|done].
    rewrite (IH (parent c) rest fuel' Hr); [done | lia].
Qed.

Lemma walk_terminates (cs : gmap string commit_record) :
  well_founded (parent_of cs) →
  ∀ start, ∃ fuel visited, walk cs fuel start = Some visited.
Proof.
  intros Hwf [h|]; [|by exists 0%nat, []].
  induction (Hwf h) as [h _ IH].
  destruct (Text.falsy h) eqn:Hf; [exists 0%nat, []; simpl; by rewrite Hf|].
  destruct (cs !! (h +:+ ".json")) as [c|] eqn:Hc;
    [|exists 0%nat, []; simpl; by rewrite Hf, Hc].
  destruct (parent c) as [p|] eqn:Hp.
  - destruct (IH p) as (fuel & rest & Hw); [by exists c|].
    exists (S fuel), ((h, c) :: rest). simpl. by rewrite Hf, Hc, Hp, Hw.
  - exists 1%nat, [(h, c)]. simpl. by rewrite Hf, Hc, Hp.
Qed.

Lemma chain_unique (cs : gmap string commit_record) (start : option string)
    (visited visited' : list (string * commit_record)) :
  chain cs start visited → chain cs start visited' → visited = visited'.
Proof.
  intros Hc. revert visited'.
  induction Hc as [| |h Hh Hnone|h c rest Hh Hsome _ IH]; intros visited' Hc';
    inversion Hc'; subst; try done; try congruence.
  assert (c0 = c) as -> by congruence. f_equal. by apply IH.
Qed.

(** On a commit file that names itself as parent the loop never ends. *)
Lemma walk_self_parent_diverges (fuel : nat) :
  walk {[ "a.json" := Commit "m" "t" [] (Some "a") ]} fuel (Some "a") = None.
Proof.
  induction fuel as [|fuel IH]; [done|].
  change (cons ("a", Commit "m" "t" [] (Some "a"))
            <$> walk {[ "a.json" := Commit "m" "t" [] (Some "a") ]} fuel
                  (Some "a") = None).
  by rewrite IH.
Qed.

(** C6 as stated fails.  The walk is not finite from every start hash:
    when the commit file of [a] names [a] as its parent, the loop of
    [log] started at [a] yields no result, however many iterations it is
    given, and [log] never returns. *)
Lemma log_self_parent_never_ends :
  commit_files Scenario.r_cycle !! "a.json"
    = Some (Commit "m" "t" [] (Some "a"))
  ∧ (∀ fuel, walk (commit_files Scenario.r_cycle) fuel (Some "a") = None)
  ∧ (∀ fuel, log fuel Scenario.r_cycle = None).
Proof.
  split; [done|]. split; [exact walk_self_parent_diverges|].
  intros fuel. unfold log.
  replace (get_current_commit Scenario.r_cycle)
    with (Return (Some "a"), Scenario.r_cycle, @nil string)
    by (vm_compute; reflexivity).
  cbn [Text.falsy]. change (Text.falsy "a") with false. cbn iota.
  change (commit_files Scenario.r_cycle)
    with ({[ "a.json" := Commit "m" "t" [] (Some "a") ]}
          : gmap string commit_record).
  by rewrite walk_self_parent_diverges.
Qed.

Lemma chain_hash_names (cs : gmap string commit_record)
    (start : option string) (visited : list (string * commit_record)) :
  entry_links cs → (∀ h, start = Some h → hash_name h = true) →
  chain cs start visited → Forall (λ hc, hash_name hc.1 = true) visited.
Proof.
  intros Hlinks Hstart Hc.
  induction Hc as [| |h Hh Hnone|h c rest Hh Hsome _ IH]; try by constructor.
  constructor; [by apply Hstart|].
  apply IH. intros p Hp. by apply (Hlinks (h +:+ ".json") c).
Qed.

(** C6 as amended.  When the parent links of the commit files have no
    cycle and every hash is the name of an entry, the loop of [log] ends
    from every start hash: with enough iterations allowed it yields the
    commits along the parent links, newest first, and it stops at a
    commit without parent or, with no error, at a hash that has no
    commit file; the list it yields is the only such chain, and every
    file it opened is an entry of [.myvcs/commits].  [log] itself then
    returns, leaves every file as it was, and prints the three lines of
    each commit of the chain from the current commit, or
    [No commits yet.] when there is none. *)
Theorem log_walk_finite (r : Repository) :
  well_founded (parent_of (commit_files r)) → entry_links (commit_files r) →
  (∀ start, (∀ h, start = Some h → hash_name h = true) →
     ∃ n visited,
       chain (commit_files r) start visited
       ∧ (∀ visited', chain (commit_files r) start visited' →
            visited' = visited)
       ∧ Forall (λ hc, hash_name hc.1 = true) visited
       ∧ ∀ fuel, (n ≤ fuel)%nat →
           walk (commit_files r) fuel start = Some visited)
  ∧ (∀ h, attached r h → entry_name h = true →
     (∀ c, current_of r h = Some c → hash_name c = true) →
     ∃ n visited,
       chain (commit_files r) (current_of r h) visited
       ∧ ∀ fuel, (n ≤ fuel)%nat →
           log fuel r =
             Some (Return (), r,
                   match current_of r h with
                   | Some c =>
                       if Text.falsy c then ["No commits yet."]
                       else visited ≫= log_lines
                   | None => ["No commits yet."]
                   end)).
Proof.
  intros Hwf Hlinks.
  assert (∀ start, (∀ h, start = Some h → hash_name h = true) →
     ∃ n visited,
       chain (commit_files r) start visited
       ∧ (∀ visited', chain (commit_files r) start visited' →
            visited' = visited)
       ∧ Forall (λ hc, hash_name hc.1 = true) visited
       ∧ ∀ fuel, (n ≤ fuel)%nat →
           walk (commit_files r) fuel start = Some visited) as Hwalk.
  { intros start Hstart.
    destruct (walk_terminates _ Hwf start) as (n & visited & Hw).
    pose proof (walk_chain _ _ _ _ Hw) as Hchain.
    exists n, visited. split; [exact Hchain|]. split; [|split].
    - intros visited' Hc'. by eapply chain_unique.
    - by eapply chain_hash_names.
    - intros fuel Hle. by eapply walk_more_fuel. }
  split; [exact Hwalk|].
  intros h Hatt _ Hcur. unfold log.
  rewrite (get_current_commit_attached r h Hatt).
  destruct (Hwalk (current_of r h) Hcur) as (n & visited & Hchain & _ & _ & Hw).
  exists n, visited. split; [exact Hchain|]. intros fuel Hle.
  destruct (current_of r h) as [c|]; [|done].
  destruct (Text.falsy c); [done|].
  by rewrite (Hw fuel Hle).
Qed.

Lemma app_inv_tail (s1 s2 t : string) : s1 +:+ t = s2 +:+ t → s1 = s2.
Proof.
  revert s2. induction s1 as [|a s1 IH]; intros [|b s2] Heq; [done|..].
  - apply (f_equal String.length) in Heq.
    rewrite !app_length in Heq; simpl in Heq. lia.
  - apply (f_equal String.length) in Heq.
    rewrite !app_length in Heq; simpl in Heq. lia.
  - rewrite !app_cons in Heq. injection Heq as -> Heq. f_equal. by apply IH.
Qed.

Lemma empty_acyclic : well_founded (parent_of ∅).
Proof.
  intros h. constructor. intros p (c & Hc & _). by rewrite lookup_empty in Hc.
Qed.

Lemma insert_keeps_acyclic (cs : gmap string commit_record) (new_hash : string)
    (c : commit_record) :
  well_founded (parent_of cs) →
  (∀ name c', cs !! name = Some c' → parent c' ≠ Some new_hash) →
  parent c ≠ Some new_hash →
  well_founded (parent_of (<[new_hash +:+ ".json" := c]> cs)).
Proof.
  intros Hwf Hold Hnew.
  assert (∀ x, x ≠ new_hash →
            Acc (parent_of (<[new_hash +:+ ".json" := c]> cs)) x) as Hother.
  { intros x. induction (Hwf x) as [x _ IH]. intros Hx.
    constructor. intros y (c0 & Hc0 & Hp).
    rewrite lookup_insert_ne in Hc0
      by (intros Heq; by apply app_inv_tail in Heq).
    apply IH; [by exists c0|]. intros ->. by apply (Hold _ _ Hc0). }
  intros x. destruct (decide (x = new_hash)) as [-> | Hx]; [|by apply Hother].
  constructor. intros y (c0 & Hc0 & Hp).
  rewrite lookup_insert_eq in Hc0. injection Hc0 as <-.
  apply Hother. by intros ->.
Qed.

(** X25.  [commit] keeps the parent links free of cycles, and so the
    loop of [log] finite, when the hash of the new commit is not already
    named as a parent, by a stored record or by the new one: a parent is
    the hash of an earlier commit, so only a coincidence of SHA-1 values
    could break this.  A fresh repository has no parent links at all. *)
Theorem commit_keeps_acyclic (r : Repository) (msg now h : string)
    (index : dict) :
  well_founded (parent_of (commit_files r)) →
  attached r h → index_file r = Some index →
  let new_hash := hash_commit (new_commit msg now index (current_of r h)) in
  current_of r h ≠ Some new_hash →
  (∀ name c, commit_files r !! name = Some c → parent c ≠ Some new_hash) →
  well_founded (parent_of (commit_files (final (commit msg now r))))
  ∧ ∀ w, well_founded (parent_of (commit_files (init w))).
Proof.
  intros Hwf Hatt Hidx new_hash Hcur Hold.
  split; [|intros w; apply empty_acyclic].
  destruct (commit_cases r msg now)
    as [-> | (h' & index' & Hidx' & _ & Hatt' & ->)]; [done|].
  assert (h' = h) as -> by (destruct Hatt, Hatt'; congruence).
  assert (index' = index) as -> by congruence.
  unfold final; simpl. by apply insert_keeps_acyclic.
Qed.

Lemma commit_keeps_acyclic_witness :
  well_founded
    (parent_of
       (commit_files (final (commit "second" "2024-01-02T00:00:00" Scenario.r3))))
  ∧ ∀ w, well_founded (parent_of (commit_files (init w))).
Proof.
  assert (commit_files Scenario.r3 =
          <[Scenario.H1 +:+ ".json" :=
              Commit "first" "2024-01-01T00:00:00Z" [("f", sha1 "hello")]
                None]> ∅) as Hcs by (vm_compute; reflexivity).
  apply (commit_keeps_acyclic Scenario.r3 "second" "2024-01-02T00:00:00"
           "master" [("f", sha1 "world")]).
  - rewrite Hcs. intros x. constructor. intros y (c & Hc & Hp).
    apply lookup_insert_Some in Hc as [[_ <-] | [_ Hc]]; [done|].
    by rewrite lookup_empty in Hc.
  - split; vm_compute; reflexivity.
  - vm_compute. reflexivity.
  - vm_compute. discriminate.
  - intros name c Hc. rewrite Hcs in Hc.
    apply lookup_insert_Some in Hc as [[_ <-] | [_ Hc]]; [done|].
    by rewrite lookup_empty in Hc.
Defined.

Example scenario_walk :
  (λ visited, visited.*1)
    <$> walk (commit_files Scenario.r4) 2 (Some Scenario.H2)
  = Some [Scenario.H2; Scenario.H1].
Proof. vm_compute. reflexivity. Qed.

Lemma scenario_ranked (p h : string) :
  parent_of (commit_files Scenario.r4) p h → (Scenario.rank p < Scenario.rank h)%nat.
Proof.
  assert (commit_files Scenario.r4 =
          <[Scenario.H2 +:+ ".json" :=
              Commit "second" "2024-01-02T00:00:00Z" [("f", sha1 "world")]
                (Some Scenario.H1)]>
            (<[Scenario.H1 +:+ ".json" :=
                 Commit "first" "2024-01-01T00:00:00Z" [("f", sha1 "hello")]
                   None]> ∅)) as -> by (vm_compute; reflexivity).
  intros (c & Hc & Hp).
  apply lookup_insert_Some in Hc as [[Hk <-] | [_ Hc]].
  - apply app_inv_tail in Hk as <-. injection Hp as <-. vm_compute. lia.
  - apply lookup_insert_Some in Hc as [[_ <-] | [_ Hc]]; [done|].
    by rewrite lookup_empty in Hc.
Qed.

Lemma scenario_entry_links : entry_links (commit_files Scenario.r4).
Proof.
  assert (commit_files Scenario.r4 =
          <[Scenario.H2 +:+ ".json" :=
              Commit "second" "2024-01-02T00:00:00Z" [("f", sha1 "world")]
                (Some Scenario.H1)]>
            (<[Scenario.H1 +:+ ".json" :=
                 Commit "first" "2024-01-01T00:00:00Z" [("f", sha1 "hello")]
                   None]> ∅)) as -> by (vm_compute; reflexivity).
  intros name c p Hc Hp.
  apply lookup_insert_Some in Hc as [[_ <-] | [_ Hc]].
  - injection Hp as <-. vm_compute. reflexivity.
  - apply lookup_insert_Some in Hc as [[_ <-] | [_ Hc]]; [done|].
    by rewrite lookup_empty in Hc.
Qed.

Lemma log_walk_finite_witness :
  ∃ n visited,
    chain (commit_files Scenario.r4) (current_of Scenario.r4 "master") visited
    ∧ ∀ fuel, (n ≤ fuel)%nat →
        log fuel Scenario.r4 =
          Some (Return (), Scenario.r4,
                match current_of Scenario.r4 "master" with
                | Some c =>
                    if Text.falsy c then ["No commits yet."]
                    else visited ≫= log_lines
                | None => ["No commits yet."]
                end).
Proof.
  assert (well_founded (parent_of (commit_files Scenario.r4))) as Hwf
    by (apply (wf_projected lt Scenario.rank);
        [apply scenario_ranked | apply lt_wf]).
  apply (proj2 (log_walk_finite Scenario.r4 Hwf scenario_entry_links)
           "master").
  - split; vm_compute; reflexivity.
  - vm_compute. reflexivity.
  - intros c Hc. vm_compute in Hc. injection Hc as <-. vm_compute. reflexivity.
Defined.

(** * Further properties *)






Lemma read_text_no_space (s : string) :
  no_space s = true → Text.read_text s = s.
Proof.
  induction s as [|c s IH]; [done|]. simpl.
  intros [Hc Hs]%andb_true_iff. apply negb_true_iff in Hc.
  destruct (Text.ord c =? 13) eqn:E.
  - apply Z.eqb_eq in E. unfold Text.is_space in Hc. rewrite E in Hc. done.
  - by rewrite IH.
Qed.

Lemma rstrip_no_space (s : string) : no_space s = true → Text.rstrip s = s.
Proof.
  induction s as [|c s IH]; [done|]. simpl.
  intros [Hc Hs]%andb_true_iff. apply negb_true_iff in Hc.
  rewrite (IH Hs), Hc. by destruct s.
Qed.

Lemma strip_read_no_space (s : string) :
  no_space s = true → Text.strip (Text.read_text s) = s.
Proof.
  intros Hs. rewrite (read_text_no_space s Hs). unfold Text.strip.
  assert (Text.lstrip s = s) as ->; [|by apply rstrip_no_space].
  destruct s as [|c s]; [done|]. simpl in *.
  apply andb_true_iff in Hs as [Hc _]. apply negb_true_iff in Hc. by rewrite Hc.
Qed.

(** ** The loop of [add] as a fold *)

Lemma add_loop_cons (file : string) (files : list string) (index : dict) :
  add_loop (file :: files) index =
    (get ≫= λ r0,
       match cwd_entry (workdir r0) file with
       | Missing =>
           print ("Warning: File '" +:+ file +:+ "' does not exist.") ;;
           add_loop files index
       | Directory => raise (IsADirectoryError (work_path file))
       | Regular b =>
           match dir_entry (object_files r0) (sha1 b) with
           | Missing => write_object_file (sha1 b) b
           | _ => mret ()
           end ;;
           print ("Added '" +:+ file +:+ "'") ;;
           add_loop files (dict_set index file (sha1 b))
       end).
Proof. reflexivity. Qed.

Lemma add_loop_returns (files : list string) :
  ∀ index r, no_directory (workdir r) files →
  add_loop files index r =
    (Return (foldl (stage (workdir r)) index files),
     mkRepository (head r) (head_file r) (branch_files r) (commit_files r)
       (foldl (store (workdir r)) (object_files r) files)
       (index_file r) (workdir r),
     add_line (workdir r) <$> files).
Proof.
  induction files as [|file files IH]; intros index r Hnd.
  - by destruct r.
  - apply Forall_cons in Hnd as [Hfile Hnd].
    rewrite add_loop_cons, bind_get. cbn [foldl fmap list_fmap].
    unfold stage at 2, store at 2, add_line at 1.
    destruct (cwd_entry (workdir r) file) as [| |b] eqn:E; [|done|].
    + unfold mbind, M_bind, print. cbv beta iota.
      by rewrite (IH index r Hnd).
    + unfold dir_entry. rewrite dot_name_sha1.
      destruct (object_files r !! sha1 b) as [b'|] eqn:Eo.
      * unfold mbind, M_bind, print, mret, M_ret. cbv beta iota.
        by rewrite (IH _ r Hnd).
      * unfold mbind, M_bind, print, write_object_file. cbv beta iota.
        by rewrite (IH _ (mkRepository (head r) (head_file r) (branch_files r)
                            (commit_files r) (<[sha1 b := b]> (object_files r))
                            (index_file r) (workdir r)) Hnd).
Qed.

Lemma add_loop_raises (fs1 : list string) (file : string) (fs2 : list string) :
  ∀ index r, no_directory (workdir r) fs1 →
  cwd_entry (workdir r) file = Directory →
  add_loop (fs1 ++ file :: fs2) index r =
    (Raise (IsADirectoryError (work_path file)),
     mkRepository (head r) (head_file r) (branch_files r) (commit_files r)
       (foldl (store (workdir r)) (object_files r) fs1)
       (index_file r) (workdir r),
     add_line (workdir r) <$> fs1).
Proof.
  induction fs1 as [|f fs1 IH]; intros index r Hnd Hdir.
  - cbn [app foldl fmap list_fmap]. rewrite add_loop_cons, bind_get, Hdir.
    by destruct r.
  - apply Forall_cons in Hnd as [Hf Hnd].
    change ((f :: fs1) ++ file :: fs2) with (f :: (fs1 ++ file :: fs2)).
    rewrite add_loop_cons, bind_get. cbn [foldl fmap list_fmap].
    unfold store at 2, add_line at 1.
    destruct (cwd_entry (workdir r) f) as [| |b] eqn:E; [|done|].
    + unfold mbind, M_bind, print. cbv beta iota.
      by rewrite (IH index r Hnd Hdir).
    + unfold dir_entry. rewrite dot_name_sha1.
      destruct (object_files r !! sha1 b) as [b'|] eqn:Eo.
      * unfold mbind, M_bind, print, mret, M_ret. cbv beta iota.
        by rewrite (IH _ r Hnd Hdir).
      * unfold mbind, M_bind, print, write_object_file. cbv beta iota.
        by rewrite (IH _ (mkRepository (head r) (head_file r) (branch_files r)
                            (commit_files r) (<[sha1 b := b]> (object_files r))
                            (index_file r) (workdir r)) Hnd Hdir).
Qed.

(** Either no path is a directory, or there is a first one. *)
Lemma first_directory (w : gmap string entry) (fs : list string) :
  no_directory w fs
  ∨ ∃ fs1 file fs2, fs = fs1 ++ file :: fs2 ∧ no_directory w fs1
                    ∧ cwd_entry w file = Directory.
Proof.
  induction fs as [|f fs IH]; [left; constructor|].
  destruct (cwd_entry w f) as [| |b] eqn:E.
  - destruct IH as [Hnd | (fs1 & file & fs2 & -> & Hnd & Hdir)].
    + left. constructor; [by rewrite E | done].
    + right. exists (f :: fs1), file, fs2. repeat split; [|done].
      constructor; [by rewrite E | done].
  - right. exists [], f, fs. repeat split; [constructor | done].
  - destruct IH as [Hnd | (fs1 & file & fs2 & -> & Hnd & Hdir)].
    + left. constructor; [by rewrite E | done].
    + right. exists (f :: fs1), file, fs2. repeat split; [|done].
      constructor; [by rewrite E | done].
Qed.

Lemma add_returns (fs : list string) (r : Repository) :
  no_directory (workdir r) fs →
  add fs r =
    (Return (),
     mkRepository (head r) (head_file r) (branch_files r) (commit_files r)
       (foldl (store (workdir r)) (object_files r) fs)
       (Some (foldl (stage (workdir r)) (default [] (index_file r)) fs))
       (workdir r),
     add_line (workdir r) <$> fs).
Proof.
  intros Hnd. unfold add. unfold mbind at 1, M_bind at 1.
  rewrite read_index_eq. unfold mbind, M_bind.
  rewrite (add_loop_returns fs _ r Hnd). unfold write_index. simpl.
  by rewrite app_nil_r.
Qed.

Lemma add_raises (fs1 : list string) (file : string) (fs2 : list string)
    (r : Repository) :
  no_directory (workdir r) fs1 → cwd_entry (workdir r) file = Directory →
  add (fs1 ++ file :: fs2) r =
    (Raise (IsADirectoryError (work_path file)),
     mkRepository (head r) (head_file r) (branch_files r) (commit_files r)
       (foldl (store (workdir r)) (object_files r) fs1)
       (index_file r) (workdir r),
     add_line (workdir r) <$> fs1).
Proof.
  intros Hnd Hdir. unfold add. unfold mbind at 1, M_bind at 1.
  rewrite read_index_eq. unfold mbind, M_bind.
  by rewrite (add_loop_raises fs1 file fs2 _ r Hnd Hdir).
Qed.

(** ** Dictionaries *)





(** ** The folds of [add] *)

Section folds.
Context (w : gmap string entry).





Lemma store_keeps (objects : gmap string string) (fs : list string)
    (sha b : string) :
  objects !! sha = Some b → foldl (store w) objects fs !! sha = Some b.
Proof.
  revert objects. induction fs as [|f fs IH]; intros objects Hs; [done|].
  simpl. apply IH. unfold store. destruct (cwd_entry w f) as [| |b']; try done.
  destruct (objects !! sha1 b') eqn:E; [done|].
  rewrite lookup_insert_ne; [done | congruence].
Qed.


End folds.

(** ** More on [add] *)






(** X4.  However [add] ends, it leaves [self.head], [HEAD], the branch
    files, the commit files and the current directory as they were, and
    every object file that existed keeps its content: [add] only creates
    object files and rewrites the index. *)
Theorem add_only_adds (fs : list string) (r : Repository) :
  head (final (add fs r)) = head r
  ∧ head_file (final (add fs r)) = head_file r
  ∧ branch_files (final (add fs r)) = branch_files r
  ∧ commit_files (final (add fs r)) = commit_files r
  ∧ workdir (final (add fs r)) = workdir r
  ∧ ∀ sha b, object_files r !! sha = Some b →
      object_files (final (add fs r)) !! sha = Some b.
Proof.
  destruct (first_directory (workdir r) fs)
    as [Hnd | (fs1 & file & fs2 & -> & Hnd & Hdir)].
  - rewrite (add_returns fs r Hnd). repeat split.
    intros sha b Hs. by apply store_keeps.
  - rewrite (add_raises fs1 file fs2 r Hnd Hdir). repeat split.
    intros sha b Hs. by apply store_keeps.
Qed.

Lemma add_only_adds_witness :
  object_files (final (add ["f"] (edit "f" "world" Scenario.r2)))
    !! sha1 "hello" = Some "hello".
Proof.
  destruct (add_only_adds ["f"] (edit "f" "world" Scenario.r2))
    as (_ & _ & _ & _ & _ & Hkept).
  apply (Hkept (sha1 "hello") "hello"). vm_compute. reflexivity.
Defined.




(** ** More on [commit] *)












(** ** More on [checkout] *)




Lemma dir_entry_regular {A : Type} (d : gmap string A) (name : string) (a : A) :
  dir_entry d name = Regular a ↔ dot_name name = false ∧ d !! name = Some a.
Proof.
  unfold dir_entry. destruct (dot_name name); [by split; [|intros []]|].
  destruct (d !! name); split; try done; by intros [_ [= ->]] || intros [= ->].
Qed.




Lemma only_workdir_refl (r : Repository) : only_workdir r r.
Proof. by repeat split. Qed.

Lemma restore_frame (fl : dict) (r0 : Repository) :
  ∀ r, only_workdir r0 r → wp (restore fl) (λ _ r', only_workdir r0 r') r.
Proof.
  induction fl as [|[p sha] fl IH]; intros r Hr; [done|].
  cbn [restore]. apply wp_bind. unfold copy_object. wp_step.
  destruct (dir_entry (object_files r) sha); [done..|].
  case_bool_decide; [done|]. destruct (dot_name p); [done|].
  destruct (workdir r !! p) as [[|]|]; unfold wp at 1; simpl; try done;
    by apply IH.
Qed.

Lemma checkout_files_frame (commit_hash : string) (r0 r : Repository) :
  only_workdir r0 r →
  wp (checkout_files commit_hash) (λ _ r', only_workdir r0 r') r.
Proof.
  intros Hr. unfold checkout_files. destruct (Text.falsy commit_hash); [done|].
  wp_step. destruct (dir_entry (commit_files r) (commit_hash +:+ ".json"));
    [done..|].
  apply wp_bind. eapply wp_mono; [by apply restore_frame|].
  by intros [[]|e] r' Hr'.
Qed.






(** ** More on [branch] *)

Lemma branch_created (r : Repository) (name h c : string) :
  dir_entry (branch_files r) name = Missing → followed name = true →
  separated name = false → attached r h →
  current_of r h = Some c → c ≠ "" →
  branch name r =
    (Return (),
     mkRepository (head r) (head_file r) (<[name := c]> (branch_files r))
       (commit_files r) (object_files r) (index_file r) (workdir r),
     ["Created branch '" +:+ name +:+ "' at " +:+ Text.short c]).
Proof.
  intros Hb Hf Hsep Hatt Hcur Hc. unfold branch. rewrite bind_get, Hb, Hf.
  unfold mbind at 1, M_bind at 1.
  rewrite (get_current_commit_attached r h Hatt), Hcur.
  rewrite (open_new_single _ _ Hsep). by destruct c.
Qed.

(** X12.  A branch created under a name that is a single path component,
    from a current branch whose file holds a hash without white space,
    points at the same commit: the new branch file reads back as the
    current commit, so [checkout] of the new name and [log] on it start
    from that commit. *)
Theorem branch_points_at_current (r : Repository) (name h t : string) :
  dir_entry (branch_files r) name = Missing → followed name = true →
  separated name = false → attached r h →
  branch_files r !! h = Some t → no_space t = true → t ≠ "" →
  returned (branch name r) = Return ()
  ∧ current_of (final (branch name r)) name = Some t
  ∧ current_of (final (branch name r)) h = Some t
  ∧ dir_entry (branch_files (final (branch name r))) name = Regular t.
Proof.
  intros Hb Hf Hsep Hatt Ht Hns Hne.
  assert (current_of r h = Some t) as Hcur.
  { unfold current_of. rewrite Ht. simpl. f_equal. by apply strip_read_no_space. }
  assert (dot_name name = false ∧ name ≠ h) as [Hdot Hnh].
  { unfold dir_entry in Hb. destruct (dot_name name); [done|]. split; [done|].
    intros ->. by rewrite Ht in Hb. }
  rewrite (branch_created r name h t Hb Hf Hsep Hatt Hcur Hne).
  unfold returned, final, current_of, dir_entry.
  cbn [fst snd branch_files].
  rewrite lookup_insert_eq, lookup_insert_ne, Ht, Hdot by done.
  cbn [fmap option_fmap option_map].
  by rewrite (strip_read_no_space t Hns).
Qed.

Lemma branch_points_at_current_witness :
  returned (branch "dev" Scenario.r4) = Return ()
  ∧ current_of (final (branch "dev" Scenario.r4)) "dev" = Some Scenario.H2
  ∧ current_of (final (branch "dev" Scenario.r4)) "master" = Some Scenario.H2
  ∧ dir_entry (branch_files (final (branch "dev" Scenario.r4))) "dev"
    = Regular Scenario.H2.
Proof.
  apply (branch_points_at_current Scenario.r4 "dev" "master" Scenario.H2).
  - vm_compute. reflexivity.
  - vm_compute. reflexivity.
  - vm_compute. reflexivity.
  - split; vm_compute; reflexivity.
  - vm_compute. reflexivity.
  - vm_compute. reflexivity.
  - discriminate.
Defined.

(** ** What the program keeps true *)
















(** ** Reading commands *)

Lemma get_current_commit_final (r : Repository) :
  final (get_current_commit r) = r.
Proof.
  destruct (get_current_commit_cases r) as [[e ->] | [h [_ ->]]]; done.
Qed.

Lemma status_tail_final (last_files : dict) (r : Repository) :
  final
    ((print "Changes since last commit:" ;;
      r0 ← get;
      match modified (workdir r0) last_files with
      | [] => print "  no changes"
      | changed => print_all ((λ f, "  modified: " +:+ f) <$> changed)
      end) r) = r.
Proof.
  unfold mbind, M_bind, print, print_all, get, final.
  by destruct (modified (workdir r) last_files).
Qed.

(** X15.  [status] and [log] write nothing: however they end, every file
    and [self.head] are as before. *)
Theorem status_log_read_only (r : Repository) :
  final (status r) = r
  ∧ ∀ fuel x, log fuel r = Some x → final x = r.
Proof.
  split.
  - change (wp status (λ _ r', r' = r) r). unfold status.
    apply wp_bind. unfold wp at 1. rewrite read_index_eq.
    cbn [returned final fst snd].
    do 3 (apply wp_bind; unfold wp at 1;
          cbn [returned final print print_all fst snd]).
    apply wp_bind. unfold wp at 1.
    rewrite get_current_commit_final.
    destruct (returned (get_current_commit r)) as [[c|]|e]; [| |done].
    + apply wp_bind. destruct (Text.falsy c).
      * unfold wp at 1. cbn [returned final mret M_ret fst snd].
        apply status_tail_final.
      * wp_step.
        destruct (dir_entry (commit_files r) (c +:+ ".json")) as [| |lc];
          [done..|].
        unfold wp at 1. cbn [returned final mret M_ret fst snd].
        apply status_tail_final.
    + apply wp_bind. unfold wp at 1. cbn [returned final mret M_ret fst snd].
      apply status_tail_final.
  - intros fuel x. unfold log.
    pose proof (get_current_commit_final r) as Hfin.
    destruct (get_current_commit r) as [[[[c|]|e] r'] out];
      unfold final in Hfin; cbn [fst snd] in Hfin; subst r'.
    + destruct (Text.falsy c); [by intros [= <-]|].
      destruct (walk (commit_files r) fuel (Some c)); [|done].
      by intros [= <-].
    + by intros [= <-].
    + by intros [= <-].
Qed.

Lemma status_log_read_only_witness :
  final (status Scenario.r4) = Scenario.r4
  ∧ ∃ x, log 3%nat Scenario.r4 = Some x ∧ final x = Scenario.r4.
Proof.
  destruct (status_log_read_only Scenario.r4) as [Hstatus Hlog].
  split; [exact Hstatus|].
  destruct (log 3%nat Scenario.r4) as [x|] eqn:E.
  - exists x. split; [reflexivity|]. by apply (Hlog 3%nat).
  - vm_compute in E. discriminate E.
Defined.

Lemma dot_name_empty : dot_name "" = true.
Proof. reflexivity. Qed.

Lemma load_head_empty (r : Repository) :
  head_file r = Some "" →
  load_head r =
    (Return (),
     mkRepository (Some "") (Some "") (branch_files r) (commit_files r)
       (object_files r) (index_file r) (workdir r), []).
Proof.
  intros H. unfold load_head. rewrite bind_get, H. unfold set_head.
  by rewrite H.
Qed.

Lemma get_current_commit_empty (r : Repository) :
  head r = Some "" →
  get_current_commit r = (Raise (IsADirectoryError (branch_path "")), r, []).
Proof.
  intros H. unfold get_current_commit, dir_entry.
  by rewrite bind_get, H, dot_name_empty.
Qed.

(** X16.  After [checkout] of a commit hash has failed in [save_head],
    [HEAD] is empty, and the next commands find a directory where the
    branch file should be: [status], [log], [commit] with staged files
    and [branch] with a new name (one that is followed as a path) all
    end with [IsADirectoryError], and [commit] writes nothing; [checkout]
    of an existing branch puts its name back into [HEAD]. *)
Theorem after_detached_checkout (r : Repository) (target : string)
    (c : commit_record) :
  dir_entry (branch_files r) target = Missing →
  commit_files r !! (target +:+ ".json") = Some c →
  returned (invoke status (final (checkout target r)))
    = Raise (IsADirectoryError (branch_path ""))
  ∧ (∀ fuel,
       returned
         <$> log fuel (final (load_head (final (checkout target r))))
       = Some (Raise (IsADirectoryError (branch_path ""))))
  ∧ (∀ msg now index, index_file r = Some index → index ≠ [] →
       returned (invoke (commit msg now) (final (checkout target r)))
         = Raise (IsADirectoryError (branch_path ""))
       ∧ commit_files
           (final (invoke (commit msg now) (final (checkout target r))))
         = commit_files r
       ∧ index_file
           (final (invoke (commit msg now) (final (checkout target r))))
         = Some index)
  ∧ (∀ name, dir_entry (branch_files r) name = Missing →
       followed name = true →
       returned (invoke (branch name) (final (checkout target r)))
         = Raise (IsADirectoryError (branch_path "")))
  ∧ (∀ name t, dir_entry (branch_files r) name = Regular t →
       head_file (final (invoke (checkout name) (final (checkout target r))))
         = Some name).
Proof.
  intros Hb Hc. rewrite (checkout_commit_raises r target c Hb Hc).
  unfold final at 1 3 4 6 7 8 9. cbn [fst snd].
  set (r' := mkRepository None (Some "") _ _ _ _ _).
  assert (load_head r' =
          (Return (),
           mkRepository (Some "") (Some "") (branch_files r) (commit_files r)
             (object_files r) (index_file r) (workdir r), [])) as Hload
    by exact (load_head_empty r' eq_refl).
  set (r'' := mkRepository (Some "") _ _ _ _ _ _) in Hload.
  assert (get_current_commit r''
          = (Raise (IsADirectoryError (branch_path "")), r'', [])) as Hcur
    by exact (get_current_commit_empty r'' eq_refl).
  split; [|split; [|split; [|split]]].
  - unfold invoke. rewrite (bind_returns _ _ _ _ _ _ Hload).
    unfold returned at 1. cbn [fst snd]. unfold status.
    unfold mbind at 1, M_bind at 1. rewrite read_index_eq.
    unfold mbind, M_bind, print, print_all. by rewrite Hcur.
  - intros fuel. unfold final. rewrite Hload. cbn [fst snd].
    unfold log. by rewrite Hcur.
  - intros msg now index Hidx Hne.
    assert (commit msg now r''
            = (Raise (IsADirectoryError (branch_path "")), r'', [])) as Hcommit.
    { assert (index_file r'' = Some index) as Hidx'' by exact Hidx.
      unfold commit. unfold mbind at 1, M_bind at 1.
      rewrite read_index_eq, Hidx''.
      destruct index as [|kv index]; [done|]. reflexivity. }
    unfold invoke. rewrite (bind_returns _ _ _ _ _ _ Hload), Hcommit.
    by repeat split.
  - intros name Hname Hf. unfold invoke.
    rewrite (bind_returns _ _ _ _ _ _ Hload).
    assert (dir_entry (branch_files r'') name = Missing) as Hname''
      by exact Hname.
    unfold branch. rewrite bind_get, Hname'', Hf.
    by rewrite (bind_raises _ _ _ _ _ _ Hcur).
  - intros name t Hname. unfold invoke.
    rewrite (bind_returns _ _ _ _ _ _ Hload). unfold final at 1. cbn [fst snd].
    change (wp (checkout name) (λ _ r1, head_file r1 = Some name) r'').
    unfold checkout. wp_step. rewrite Hname. wp_step. wp_step. wp_step.
    eapply wp_mono.
    + apply (checkout_files_frame _
               (mkRepository (Some name) (Some name) (branch_files r)
                  (commit_files r) (object_files r) (index_file r) (workdir r))).
      apply only_workdir_refl.
    + by intros o r1 (_ & Hhf & _).
Qed.

Lemma app_assoc_string (s t u : string) : (s +:+ t) +:+ u = s +:+ t +:+ u.
Proof. induction s as [|a s IH]; [done|]. rewrite !app_cons. by rewrite IH. Qed.

Lemma after_detached_checkout_witness :
  returned (invoke status (final (checkout Scenario.H1 Scenario.r4)))
    = Raise (IsADirectoryError (branch_path ""))
  ∧ (∀ fuel,
       returned
         <$> log fuel (final (load_head (final (checkout Scenario.H1 Scenario.r4))))
       = Some (Raise (IsADirectoryError (branch_path ""))))
  ∧ (∀ msg now index, index_file Scenario.r4 = Some index → index ≠ [] →
       returned (invoke (commit msg now) (final (checkout Scenario.H1 Scenario.r4)))
         = Raise (IsADirectoryError (branch_path ""))
       ∧ commit_files
           (final (invoke (commit msg now)
                     (final (checkout Scenario.H1 Scenario.r4))))
         = commit_files Scenario.r4
       ∧ index_file
           (final (invoke (commit msg now)
                     (final (checkout Scenario.H1 Scenario.r4))))
         = Some index)
  ∧ (∀ name, dir_entry (branch_files Scenario.r4) name = Missing →
       followed name = true →
       returned (invoke (branch name) (final (checkout Scenario.H1 Scenario.r4)))
         = Raise (IsADirectoryError (branch_path "")))
  ∧ (∀ name t, dir_entry (branch_files Scenario.r4) name = Regular t →
       head_file
         (final (invoke (checkout name)
                   (final (checkout Scenario.H1 Scenario.r4))))
         = Some name).
Proof.
  apply (after_detached_checkout Scenario.r4 Scenario.H1
           (Commit "first" "2024-01-01T00:00:00Z" [("f", sha1 "hello")] None)).
  - vm_compute. reflexivity.
  - vm_compute. reflexivity.
Defined.

(** X21.  After [checkout] of an existing branch, the next process reads
    [HEAD] back stripped of surrounding white space: [self.head] is the
    branch name when the name has no white space, so a later [commit]
    advances that branch. *)
Theorem head_after_checkout (r : Repository) (target t : string) :
  dir_entry (branch_files r) target = Regular t →
  head (final (load_head (final (checkout target r))))
    = Some (Text.strip (Text.read_text target))
  ∧ (no_space target = true →
     attached (final (load_head (final (checkout target r)))) target).
Proof.
  intros Hb.
  assert (head_file (final (checkout target r)) = Some target) as Hhf.
  { change (wp (checkout target) (λ _ r1, head_file r1 = Some target) r).
    unfold checkout. wp_step. rewrite Hb. wp_step. wp_step. wp_step.
    eapply wp_mono.
    - apply (checkout_files_frame _
               (mkRepository (Some target) (Some target) (branch_files r)
                  (commit_files r) (object_files r) (index_file r) (workdir r))).
      apply only_workdir_refl.
    - by intros o r1 (_ & Hhf & _). }
  assert (head (final (load_head (final (checkout target r))))
          = Some (Text.strip (Text.read_text target))) as Hhead.
  { unfold load_head. rewrite bind_get, Hhf. done. }
  split; [exact Hhead|]. intros Hns. split.
  - by rewrite Hhead, (strip_read_no_space target Hns).
  - by apply dir_entry_regular in Hb as [Hdot _].
Qed.

Lemma head_after_checkout_witness :
  head (final (load_head (final (checkout "master" Scenario.r4))))
    = Some (Text.strip (Text.read_text "master"))
  ∧ (no_space "master" = true →
     attached (final (load_head (final (checkout "master" Scenario.r4))))
       "master").
Proof.
  apply (head_after_checkout Scenario.r4 "master" Scenario.H2).
  vm_compute. reflexivity.
Defined.





(** X23.  Right after a commit there is nothing staged: a second
    [commit] prints that there is nothing to commit and leaves every
    file, the branch file and the new commit file included, as the first
    left it. *)
Theorem commit_twice (r : Repository) (h msg1 now1 msg2 now2 : string)
    (index : dict) :
  index_file r = Some index → index ≠ [] → attached r h →
  commit msg2 now2 (final (commit msg1 now1 r)) =
    (Return (), final (commit msg1 now1 r),
     ["Nothing to commit, staging area is empty."]).
Proof.
  intros Hidx Hne Hatt.
  rewrite (commit_attached r msg1 now1 h index Hidx Hne Hatt).
  unfold final. cbn [fst snd]. unfold commit at 1.
  unfold mbind, M_bind. by rewrite read_index_eq.
Qed.

Lemma commit_twice_witness :
  commit "again" "2024-01-03T00:00:00"
    (final (commit "second" "2024-01-02T00:00:00" Scenario.r3)) =
    (Return (), final (commit "second" "2024-01-02T00:00:00" Scenario.r3),
     ["Nothing to commit, staging area is empty."]).
Proof.
  apply (commit_twice Scenario.r3 "master" "second" "2024-01-02T00:00:00"
           "again" "2024-01-03T00:00:00" [("f", sha1 "world")]).
  - vm_compute. reflexivity.
  - discriminate.
  - split; vm_compute; reflexivity.
Defined.

Lemma decode_escape_char (c : ascii) (rest : string) :
  decode_char (Json.escape_char c +:+ rest) = Some (c, rest).
Proof. destruct c as [[] [] [] [] [] [] [] []]; reflexivity. Qed.

Lemma escape_app_inj (s1 : string) :
  ∀ s2 x y,
    Json.escape s1 +:+ String Text.quote x = Json.escape s2 +:+ String Text.quote y →
    s1 = s2 ∧ x = y.
Proof.
  induction s1 as [|c1 s1 IH]; intros [|c2 s2] x y Heq.
  - by injection Heq as ->.
  - cbn [Json.escape] in Heq. rewrite app_assoc_string in Heq.
    apply (f_equal decode_char) in Heq. by rewrite decode_escape_char in Heq.
  - cbn [Json.escape] in Heq. rewrite app_assoc_string in Heq.
    apply (f_equal decode_char) in Heq. by rewrite decode_escape_char in Heq.
  - cbn [Json.escape] in Heq. rewrite !app_assoc_string in Heq.
    apply (f_equal decode_char) in Heq. rewrite !decode_escape_char in Heq.
    injection Heq as -> Heq. by destruct (IH _ _ _ Heq) as [-> ->].
Qed.

Lemma str_app (s rest : string) :
  Json.str s +:+ rest
  = String Text.quote (Json.escape s +:+ String Text.quote rest).
Proof. unfold Json.str. by rewrite app_cons, app_assoc_string. Qed.

Lemma str_app_inj (s1 s2 x y : string) :
  Json.str s1 +:+ x = Json.str s2 +:+ y → s1 = s2 ∧ x = y.
Proof.
  rewrite !str_app. intros [= Heq]. by apply escape_app_inj.
Qed.

Lemma str_or_null_app_inj (o1 o2 : option string) (x y : string) :
  Json.str_or_null o1 +:+ x = Json.str_or_null o2 +:+ y → o1 = o2 ∧ x = y.
Proof.
  destruct o1 as [s1|], o2 as [s2|]; cbn [Json.str_or_null].
  - intros [-> ->]%str_app_inj. done.
  - rewrite str_app. intros [=].
  - rewrite str_app. intros [=].
  - by intros ->%(inj (String.app "null")).
Qed.

Lemma object_body_cons (kv : string * string) (d : dict) (z : string) :
  object_body (kv :: d) +:+ z
  = Json.str kv.1 +:+ ": " +:+ Json.str kv.2
    +:+ match d with
        | [] => z
        | _ => ", " +:+ object_body d +:+ z
        end.
Proof.
  unfold object_body, Json.item. rewrite fmap_cons. cbn [String.concat].
  destruct d as [|kv' d]; cbn [fmap list_fmap].
  - by rewrite !app_assoc_string.
  - by rewrite !app_assoc_string.
Qed.

Lemma object_body_inj (d1 : dict) :
  ∀ d2 x y,
    object_body d1 +:+ String "}" x = object_body d2 +:+ String "}" y →
    d1 = d2 ∧ x = y.
Proof.
  induction d1 as [|[k1 v1] d1 IH]; intros [|[k2 v2] d2] x y.
  - by intros [= ->].
  - rewrite object_body_cons, str_app. intros [=].
  - rewrite object_body_cons, str_app. intros [=].
  - rewrite !object_body_cons. cbn [fst snd].
    intros [-> Heq]%str_app_inj.
    apply (inj (String.app ": ")) in Heq.
    apply str_app_inj in Heq as [-> Heq].
    destruct d1 as [|kv1 d1], d2 as [|kv2 d2].
    + by injection Heq as ->.
    + discriminate Heq.
    + discriminate Heq.
    + apply (inj (String.app ", ")) in Heq.
      by destruct (IH _ _ _ Heq) as [-> ->].
Qed.

Lemma object_of_app (d : dict) (z : string) :
  Json.object_of d +:+ z = "{" +:+ object_body d +:+ String "}" z.
Proof.
  unfold Json.object_of. fold (object_body d). by rewrite !app_assoc_string.
Qed.

Lemma dumps_sorted_inj (c1 c2 : commit_record) :
  Json.dumps_sorted c1 = Json.dumps_sorted c2 →
  Json.loads_dumps_sorted c1 = Json.loads_dumps_sorted c2.
Proof.
  unfold Json.dumps_sorted. intros Heq.
  apply (inj (String.app "{")) in Heq.
  apply str_app_inj in Heq as [_ Heq].
  apply (inj (String.app ": ")) in Heq.
  rewrite !object_of_app in Heq.
  apply (inj (String.app "{")) in Heq.
  apply object_body_inj in Heq as [Hfiles Heq].
  apply (inj (String.app ", ")) in Heq.
  apply str_app_inj in Heq as [_ Heq].
  apply (inj (String.app ": ")) in Heq.
  apply str_app_inj in Heq as [Hmsg Heq].
  apply (inj (String.app ", ")) in Heq.
  apply str_app_inj in Heq as [_ Heq].
  apply (inj (String.app ": ")) in Heq.
  apply str_or_null_app_inj in Heq as [Hparent Heq].
  apply (inj (String.app ", ")) in Heq.
  apply str_app_inj in Heq as [_ Heq].
  apply (inj (String.app ": ")) in Heq.
  apply str_app_inj in Heq as [Htime _].
  unfold Json.loads_dumps_sorted. by rewrite Hfiles, Hmsg, Hparent, Htime.
Qed.

(** X24.  [json.dumps(commit, sort_keys=True)] tells commits apart: two
    records have the same serialization exactly when they are equal as
    dictionaries (the same message, timestamp and parent, and the same
    entries in [files], in any order).  So two different commits can
    only share a hash if SHA-1 collides. *)
Theorem dumps_sorted_eq_iff (c1 c2 : commit_record) :
  Json.dumps_sorted c1 = Json.dumps_sorted c2 ↔ same_record c1 c2.
Proof.
  split; [|apply dumps_sorted_same].
  intros Heq%dumps_sorted_inj. unfold Json.loads_dumps_sorted in Heq.
  injection Heq as Hm Ht Hf Hp. repeat split; try done.
  unfold Json.sorted_items in Hf.
  by rewrite <- (merge_sort_Permutation Json.item_le (files c1)), Hf,
    merge_sort_Permutation.
Qed.
